(** * L2TP/IPsec VPN action: a shallow embedding of [src/index.js]

    The action is a straight-line orchestration of external tools: it writes
    five configuration files through [sudo], starts the IPsec and L2TP
    daemons, polls two status commands until the tunnel is up, and rewires
    the routes.  Everything observable about it is the sequence of
    interactions it has with its environment, so the embedding is a small
    monad that threads an interaction counter and a clock, logs every
    interaction, and propagates JavaScript exceptions. *)

From Stdlib Require Import List NArith ZArith Lia Bool String Ascii.
Import ListNotations.

Set Implicit Arguments.

(** ** JavaScript strings

    A JavaScript string is a sequence of UTF-16 code units.  The regular
    expressions and [trim] of the source depend on code units beyond ASCII
    (line terminators U+2028 and U+2029, the Unicode spaces), so strings are
    lists of code units and not lists of bytes. *)

Module JS.

Definition jsstring := list N.

(** An ASCII literal of the source. *)
Definition lit (s : string) : jsstring :=
  map N_of_ascii (list_ascii_of_string s).

Definition dquote : N := 34.
Definition LF : N := 10.
Definition slash : N := 47.
Definition comma : N := 44.
Definition dot : N := 46.

Fixpoint eqb (a b : jsstring) : bool :=
  match a, b with
  | [], [] => true
  | c :: a', d :: b' => N.eqb c d && eqb a' b'
  | _, _ => false
  end.

(** [s.startsWith(p)] *)
Fixpoint startsWith (s p : jsstring) {struct p} : bool :=
  match p with
  | [] => true
  | c :: p' =>
      match s with
      | [] => false
      | d :: s' => N.eqb d c && startsWith s' p'
      end
  end.

(** [s.split(sep)] for a one-character separator: never the empty array. *)
Fixpoint split (sep : N) (s : jsstring) : list jsstring :=
  match s with
  | [] => [[]]
  | c :: s' =>
      if N.eqb c sep then [] :: split sep s'
      else match split sep s' with
           | [] => [[c]]
           | piece :: rest => (c :: piece) :: rest
           end
  end.

(** [a.pop()]: the last element, [undefined] on the empty array. *)
Fixpoint pop (a : list jsstring) : option jsstring :=
  match a with
  | [] => None
  | [x] => Some x
  | _ :: a' => pop a'
  end.

(** A value interpolated in a template literal. *)
Definition interp (v : option jsstring) : jsstring :=
  match v with
  | Some s => s
  | None => lit "undefined"
  end.

Fixpoint lastIndexOf_from (c : N) (s : jsstring) (i acc : Z) : Z :=
  match s with
  | [] => acc
  | d :: s' => lastIndexOf_from c s' (i + 1)%Z (if N.eqb d c then i else acc)
  end.

(** [s.lastIndexOf(c)], [-1] when [c] does not occur. *)
Definition lastIndexOf (c : N) (s : jsstring) : Z :=
  lastIndexOf_from c s 0%Z (-1)%Z.

(** [s.substring(a, b)]: both ends clamped to [0 .. length], swapped when
    out of order. *)
Definition substring (s : jsstring) (a b : Z) : jsstring :=
  let len := Z.of_nat (List.length s) in
  let clamp := fun x => Z.max 0 (Z.min x len) in
  let lo := Z.min (clamp a) (clamp b) in
  let hi := Z.max (clamp a) (clamp b) in
  firstn (Z.to_nat (hi - lo)) (skipn (Z.to_nat lo) s).

(** Truthiness of a string: the empty string is the only falsy one. *)
Definition truthy (s : jsstring) : bool :=
  match s with [] => false | _ :: _ => true end.

(** ECMAScript LineTerminator. *)
Definition isLineTerminator (c : N) : bool :=
  N.eqb c 10 || N.eqb c 13 || N.eqb c 8232 || N.eqb c 8233.

(** ECMAScript WhiteSpace and LineTerminator, what [trim] removes. *)
Definition isWhiteSpace (c : N) : bool :=
  (N.leb 9 c && N.leb c 13) || N.eqb c 32 || N.eqb c 160 || N.eqb c 5760
  || (N.leb 8192 c && N.leb c 8202) || N.eqb c 8232 || N.eqb c 8233
  || N.eqb c 8239 || N.eqb c 8287 || N.eqb c 12288 || N.eqb c 65279.

Fixpoint trimStart (s : jsstring) : jsstring :=
  match s with
  | [] => []
  | c :: s' => if isWhiteSpace c then trimStart s' else s
  end.

Definition trimEnd (s : jsstring) : jsstring := rev (trimStart (rev s)).

Definition trim (s : jsstring) : jsstring := trimEnd (trimStart s).

(** [\d] without the unicode flag. *)
Definition isDigit (c : N) : bool := N.leb 48 c && N.leb c 57.

(** The longest run of digits at the head of [s], and what follows it. *)
Fixpoint spanDigits (s : jsstring) : jsstring * jsstring :=
  match s with
  | [] => ([], [])
  | c :: s' =>
      if isDigit c
      then let (d, r) := spanDigits s' in (c :: d, r)
      else ([], s)
  end.

End JS.

Import JS.

(** ** The regular expressions of the source *)

Module Regex.

(** [.*p] anchored at the head of [s]: [.] is any code unit but a line
    terminator. *)
Fixpoint dotStarThen (p s : jsstring) : bool :=
  startsWith s p
  || match s with
     | [] => false
     | c :: s' => negb (isLineTerminator c) && dotStarThen p s'
     end.

(** [L2TP-PSK.*ESTABLISHED] anchored at the head of [s]. *)
Definition establishedHere (s : jsstring) : bool :=
  startsWith s (lit "L2TP-PSK")
  && dotStarThen (lit "ESTABLISHED") (skipn 8 s).

(** [/L2TP-PSK.*ESTABLISHED/.test(s)] *)
Fixpoint testEstablished (s : jsstring) : bool :=
  establishedHere s
  || match s with
     | [] => false
     | _ :: s' => testEstablished s'
     end.

(** [\d+\.] at the head of [s].  A greedy [\d+] that must be followed by a
    dot can only stop at the end of the run of digits. *)
Definition digitsDot (s : jsstring) : option (jsstring * jsstring) :=
  match spanDigits s with
  | ((_ :: _) as d, c :: r) => if N.eqb c dot then Some (d, r) else None
  | _ => None
  end.

(** [\d+\.\d+\.\d+\.\d+] at the head of [s]: the text it matches. *)
Definition dottedQuadHere (s : jsstring) : option jsstring :=
  match digitsDot s with
  | None => None
  | Some (d1, r1) =>
      match digitsDot r1 with
      | None => None
      | Some (d2, r2) =>
          match digitsDot r2 with
          | None => None
          | Some (d3, r3) =>
              match fst (spanDigits r3) with
              | [] => None
              | d4 => Some (d1 ++ dot :: d2 ++ dot :: d3 ++ dot :: d4)
              end
          end
      end
  end.

(** [via (\d+\.\d+\.\d+\.\d+)] at the head of [s]: capture group 1. *)
Definition viaHere (s : jsstring) : option jsstring :=
  if startsWith s (lit "via ") then dottedQuadHere (skipn 4 s) else None.

(** [s.match(/via (\d+\.\d+\.\d+\.\d+)/)]: group 1 of the leftmost match,
    [None] for a null result. *)
Fixpoint matchVia (s : jsstring) : option jsstring :=
  match viaHere s with
  | Some g => Some g
  | None =>
      match s with
      | [] => None
      | _ :: s' => matchVia s'
      end
  end.

End Regex.

Import Regex.

(** ** The environment and the effect monad

    Every call that leaves the process ([exec], [fs], [core], the timer) is
    one interaction.  The [n]-th interaction of a run is answered by the
    [n]-th reply of the environment; a program being deterministic, this
    covers every way the outside world can behave. *)

Inductive Event : Type :=
| GetInput (name : jsstring)
    (** [core.getInput(name, { required: true })] *)
| Info (msg : jsstring)
| Warning (msg : jsstring)
| SetFailed (msg : jsstring)
| ConsoleLog (msg : jsstring)
| WriteFile (path content : jsstring) (mode : option N)
    (** [fs.writeFile(path, content)]; [mode] is the options argument *)
| ReadFile (path encoding : jsstring)
| Exec (commandLine : jsstring) (args : list jsstring)
| Sleep (ms : Z)
    (** [await new Promise(resolve => setTimeout(resolve, ms))] *)
| ContextPayload.
    (** [JSON.stringify(github.context.payload, undefined, 2)] *)

Record Reply : Type := {
  failure : option jsstring;  (** the message of the error it rejects with *)
  stdout : list jsstring;     (** the chunks handed to a [stdout] listener *)
  text : jsstring;            (** the value it resolves to *)
  elapsed : Z                 (** the time it took, in milliseconds *)
}.

Definition Env := nat -> Reply.

Record World : Type := {
  idx : nat;    (** number of interactions so far *)
  clock : Z     (** [Date.now()] *)
}.

Inductive Outcome (A : Type) : Type :=
| Ok (a : A)
| Throw (e : jsstring)
| Diverge.

Arguments Throw {A} e.
Arguments Diverge {A}.

Definition M (A : Type) : Type := Env -> World -> Outcome A * World * list Event.

Definition ret {A} (a : A) : M A := fun _ w => (Ok a, w, []).

Definition throw {A} (e : jsstring) : M A := fun _ w => (Throw e, w, []).

Definition diverge {A} : M A := fun _ w => (Diverge, w, []).

Definition bind {A B} (m : M A) (k : A -> M B) : M B := fun env w =>
  match m env w with
  | (Ok a, w1, t1) =>
      match k a env w1 with
      | (o, w2, t2) => (o, w2, t1 ++ t2)
      end
  | (Throw e, w1, t1) => (Throw e, w1, t1)
  | (Diverge, w1, t1) => (Diverge, w1, t1)
  end.

(** [try { m } catch (error) { h error }] *)
Definition try_catch {A} (m : M A) (h : jsstring -> M A) : M A := fun env w =>
  match m env w with
  | (Throw e, w1, t1) =>
      match h e env w1 with
      | (o, w2, t2) => (o, w2, t1 ++ t2)
      end
  | r => r
  end.

Declare Scope js_scope.
Delimit Scope js_scope with js.
Notation "x <- m ;; k" := (bind m (fun x => k))
  (at level 61, m at next level, right associativity) : js_scope.
Notation "m ;; k" := (bind m (fun _ => k))
  (at level 61, right associativity) : js_scope.
Open Scope js_scope.

(** One interaction: it is logged, answered by the environment, and moves
    the clock by [cost] plus the time the environment says it took. *)
Definition advance (env : Env) (w : World) (cost : Z) : World :=
  {| idx := S (idx w); clock := clock w + cost + elapsed (env (idx w)) |}.

Definition interact (ev : Event) (cost : Z) : M Reply := fun env w =>
  (Ok (env (idx w)), advance env w cost, [ev]).

(** An interaction that can reject. *)
Definition attempt {A} (ev : Event) (result : Reply -> A) : M A :=
  r <- interact ev 0 ;;
  match failure r with
  | Some e => throw e
  | None => ret (result r)
  end.

(** An interaction that cannot. *)
Definition emit (ev : Event) : M unit :=
  _ <- interact ev 0 ;; ret tt.

(** [await exec(commandLine, args)] of [@actions/exec]: rejects when the
    tool cannot be started or exits with a non-zero code. *)
Definition exec (commandLine : jsstring) (args : list jsstring) : M unit :=
  attempt (Exec commandLine args) (fun _ => tt).

(** [exec] with a [stdout] listener: the chunks the listener has seen when
    the call resolves.  When the call rejects, the exception leaves every
    scope of the source in which what the listener collected is read. *)
Definition exec_stdout (commandLine : jsstring) (args : list jsstring)
  : M (list jsstring) :=
  attempt (Exec commandLine args) stdout.

Definition fs_writeFile (path content : jsstring) : M unit :=
  attempt (WriteFile path content None) (fun _ => tt).

Definition fs_readFile (path encoding : jsstring) : M jsstring :=
  attempt (ReadFile path encoding) text.

Definition core_getInput (name : jsstring) : M jsstring :=
  attempt (GetInput name) text.

Definition core_info (msg : jsstring) : M unit := emit (Info msg).
Definition core_warning (msg : jsstring) : M unit := emit (Warning msg).
Definition core_setFailed (msg : jsstring) : M unit := emit (SetFailed msg).
Definition console_log (msg : jsstring) : M unit := emit (ConsoleLog msg).

Definition context_payload : M jsstring :=
  r <- interact ContextPayload 0 ;; ret (text r).

(** [Date.now()] *)
Definition Date_now : M Z := fun _ w => (Ok (clock w), w, []).

(** The delay Node gives a timer: 1 when the requested one is below 1 or
    above 2^31 - 1. *)
Definition timerDelay (ms : Z) : Z :=
  if ((1 <=? ms) && (ms <=? 2147483647))%Z then ms else 1%Z.

(** [await new Promise((resolve) => setTimeout(resolve, ms))] *)
Definition sleep (ms : Z) : M unit :=
  _ <- interact (Sleep ms) (timerDelay ms) ;; ret tt.

(** ** The program *)

(** A template literal, one element per source line. *)
Fixpoint template (lines : list jsstring) : jsstring :=
  match lines with
  | [] => []
  | [l] => l
  | l :: rest => l ++ LF :: template rest
  end.

(** The two constants of [createFileWithSudo]. *)
Definition tempFile (path : jsstring) : jsstring :=
  lit "/tmp/" ++ interp (pop (split slash path)).

Definition dirname (path : jsstring) : jsstring :=
  substring path 0 (lastIndexOf slash path).

Definition createFileWithSudo (path content : jsstring) : M unit :=
  fs_writeFile (tempFile path) content ;;
  (if truthy (dirname path)
   then exec (lit "sudo") [lit "mkdir"; lit "-p"; dirname path]
   else ret tt) ;;
  exec (lit "sudo") [lit "mv"; tempFile path; path] ;;
  exec (lit "sudo") [lit "chmod"; lit "600"; path].

Definition createSymlinkWithSudo (target source : jsstring) : M unit :=
  try_catch
    (exec (lit "sudo") [lit "ln"; lit "-fs"; source; target])
    (fun error =>
       core_warning (lit "Failed to create symlink from " ++ source
                     ++ lit " to " ++ target ++ lit ": " ++ error)).

Definition ipsec_conf (server : jsstring) : jsstring :=
  template
    [ [];
      lit "config setup";
      lit "";
      lit "conn L2TP-PSK";
      lit "    # Use IKEv1 for key exchange (IKEv2 is typically used in IPsec only setups, without L2TP)";
      lit "    keyexchange=ikev1";
      lit "";
      lit "    # Use these ciphers (see full list here https://wiki.strongswan.org/projects/strongswan/wiki/IKEv1CipherSuites):";
      lit "    # - aes128-sha256-modp2048: the most widely supported";
      lit "    # - aes256-sha256-modp2048: a stronger alternative, not as widely supported";
      lit "    # - aes256-sha512-modp4096: the strongest, but unlikely to be supported";
      lit "    ike=aes128-sha256-modp2048,aes256-sha256-modp2048,aes256-sha512-modp4096";
      lit "";
      lit "    # Start the connection when the IPsec service starts";
      lit "    auto=start";
      lit "";
      lit "    # Authenticate using a pre-shared key";
      lit "    authby=psk";
      lit "";
      lit "    # Use IPsec only as a transport mode and not a tunnel on its own";
      lit "    type=transport";
      lit "";
      lit "    # IP address of the VPN server";
      lit "    right=" ++ server;
      [] ].

Definition ipsec_secrets (server psk : jsstring) : jsstring :=
  server ++ lit " : PSK " ++ dquote :: psk ++ [dquote].

Definition options_l2tpd_client (username : jsstring) (password : jsstring) : jsstring :=
  template
    [ [];
      lit "# L2TP cannot use EAP authentication so disable it";
      lit "refuse-eap";
      lit "# L2TP requires MS-CHAPv2 for authentication";
      lit "require-mschap-v2";
      lit "# Disable compression, since most of the traffic is already compressed";
      lit "# and compression can cause issues with some protocols";
      lit "noccp";
      lit "# Disable ppp authentication, since we are using L2TP/IPsec authentication";
      lit "noauth";
      lit "";
      lit "logfile /var/log/xl2tpd.log";
      lit "mtu 1410";
      lit "mru 1410";
      lit "defaultroute";
      lit "usepeerdns";
      lit "debug";
      lit "name " ++ username;
      lit "password " ++ password;
      [] ].

Definition xl2tpd_conf (server : jsstring) : jsstring :=
  template
    [ [];
      lit "[lac vpn]";
      lit "lns = " ++ server;
      lit "ppp debug = yes";
      lit "pppoptfile = /etc/ppp/options.l2tpd.client";
      lit "length bit = yes";
      lit "autodial = yes";
      [] ].

Definition resolv_vpn_conf : jsstring :=
  template
    [ [];
      lit "nameserver 1.1.1.1";
      lit "nameserver 8.8.8.8";
      [] ].

Definition createConfigFiles (server username password psk : jsstring) : M unit :=
  createFileWithSudo (lit "/etc/ipsec.conf") (ipsec_conf server) ;;
  createFileWithSudo (lit "/etc/ipsec.secrets") (ipsec_secrets server psk) ;;
  createFileWithSudo (lit "/etc/ppp/options.l2tpd.client")
    (options_l2tpd_client username password) ;;
  createFileWithSudo (lit "/etc/xl2tpd/xl2tpd.conf") (xl2tpd_conf server) ;;
  createFileWithSudo (lit "/etc/resolv-vpn.conf") resolv_vpn_conf ;;
  createSymlinkWithSudo (lit "/etc/resolv.conf") (lit "/etc/resolv-vpn.conf") ;;
  core_info (lit "All configuration files created successfully.").

(** The two readiness tests of one tick. *)
Definition ipsecEstablished (ipsecOutput : jsstring) : bool :=
  testEstablished ipsecOutput.

Definition pppInterfaceUp (ifaceOutput : jsstring) : bool :=
  existsb (fun line => startsWith (trim line) (lit "inet ")) (split LF ifaceOutput).

(** The body of the [try] block of one tick: [true] when it reaches
    [return true]. *)
Definition pollOnce : M bool :=
  ipsecChunks <- exec_stdout (lit "sudo ipsec status") [] ;;
  let ipsecOutput := List.concat ipsecChunks in
  let ipsecOk := ipsecEstablished ipsecOutput in
  ifaceChunks <- exec_stdout (lit "ip a s ppp0") [] ;;
  let ifaceOutput := List.concat ifaceChunks in
  let pppOk := pppInterfaceUp ifaceOutput in
  ret (ipsecOk && pppOk).

(** The [while] loop: [Some true] when the function returns from inside
    it, [None] when the loop condition fails.  [fuel] bounds the number of
    times the condition is evaluated. *)
Fixpoint pollLoop (fuel : nat) (start timeout interval : Z) : M (option bool) :=
  match fuel with
  | O => diverge
  | S fuel' =>
      now <- Date_now ;;
      if (now - start <? timeout)%Z then
        ready <- try_catch pollOnce (fun _ => ret false) ;;
        if ready then ret (Some true)
        else sleep interval ;; pollLoop fuel' start timeout interval
      else ret None
  end.

Definition timeoutMessage : jsstring :=
  lit "VPN connection timeout: IPsec or PPP interface not ready. Content of /var/log/xl2tpd.log:"
  ++ [LF].

Definition default_timeout : Z := 30000.
Definition default_interval : Z := 1000.

Definition waitForVpnConnection (fuel : nat) (timeout interval : Z) : M bool :=
  start <- Date_now ;;
  r <- pollLoop fuel start timeout interval ;;
  match r with
  | Some v => ret v
  | None =>
      log <- fs_readFile (lit "/var/log/xl2tpd.log") (lit "utf8") ;;
      throw (timeoutMessage ++ log)
  end.

(** What the [stdout] listener of [ip route get] leaves in [gateway]. *)
Definition gatewayOf (chunks : list jsstring) : jsstring :=
  fold_left
    (fun gateway data =>
       match matchVia data with
       | Some g => g
       | None => gateway
       end)
    chunks [].

Definition routeGet (server : jsstring) : jsstring := lit "ip route get " ++ server.

Definition routeAdd (server gateway : jsstring) : jsstring :=
  lit "ip route add " ++ server ++ lit " via " ++ gateway ++ lit " dev eth0".

Definition routeReplace : jsstring := lit "ip route replace default dev ppp0".

(** The routing phase of [startVPN], from the gateway query on. *)
Definition commitRoutes (server : jsstring) : M unit :=
  chunks <- exec_stdout (routeGet server) [] ;;
  let gateway := gatewayOf chunks in
  if negb (truthy gateway)
  then throw (lit "Could not determine gateway to VPN server")
  else
    exec (routeAdd server gateway) [] ;;
    exec routeReplace [].

Definition startVPN (fuel : nat) (server : jsstring) : M unit :=
  core_info (lit "Starting the VPN connection...") ;;
  exec (lit "sudo ipsec start") [] ;;
  exec (lit "sudo xl2tpd -C /tmp/l2tp-control") [] ;;
  core_info (lit "Waiting for the VPN connection to start...") ;;
  waitForVpnConnection fuel default_timeout default_interval ;;
  core_info (lit "VPN connection established!") ;;
  core_info (lit "Settings routes...") ;;
  commitRoutes server.

Definition installTools : M unit :=
  exec (lit "sudo") [lit "apt-get"; lit "update"] ;;
  exec (lit "sudo") [lit "apt-get"; lit "install"; lit "-y"; lit "strongswan"; lit "xl2tpd"].

(** The body of the [try] block of [run]. *)
Definition main (fuel : nat) : M unit :=
  server <- core_getInput (lit "server") ;;
  username <- core_getInput (lit "username") ;;
  password <- core_getInput (lit "password") ;;
  psk <- core_getInput (lit "psk") ;;
  core_info (lit "Installing necessary tools...") ;;
  installTools ;;
  createConfigFiles server username password psk ;;
  startVPN fuel server ;;
  payload <- context_payload ;;
  console_log (lit "The event payload: " ++ payload).

Definition run (fuel : nat) : M unit :=
  try_catch (main fuel) (fun error => core_setFailed error).

Definition world0 : World := {| idx := 0; clock := 0 |}.

(** The log of a computation, and its outcome. *)
Definition traceOf {A} (r : Outcome A * World * list Event) : list Event := snd r.
Definition outcomeOf {A} (r : Outcome A * World * list Event) : Outcome A := fst (fst r).
Definition worldOf {A} (r : Outcome A * World * list Event) : World := snd (fst r).

(** ** Observations on a log *)

(** The four interactions of [createFileWithSudo], in source order. *)
Definition writeStep (path content : jsstring) : Event :=
  WriteFile (tempFile path) content None.
Definition mkdirStep (path : jsstring) : Event :=
  Exec (lit "sudo") [lit "mkdir"; lit "-p"; dirname path].
Definition mvStep (path : jsstring) : Event :=
  Exec (lit "sudo") [lit "mv"; tempFile path; path].
Definition chmodStep (path : jsstring) : Event :=
  Exec (lit "sudo") [lit "chmod"; lit "600"; path].

Definition artifactSteps (path content : jsstring) : list Event :=
  writeStep path content
  :: (if truthy (dirname path) then [mkdirStep path] else [])
  ++ [mvStep path; chmodStep path].

(** A list of interactions run in order, each one fatal when it rejects. *)
Fixpoint attemptAll (steps : list Event) : M unit :=
  match steps with
  | [] => ret tt
  | ev :: rest => attempt ev (fun _ => tt) ;; attemptAll rest
  end.

Definition symlinkStep : Event :=
  Exec (lit "sudo") [lit "ln"; lit "-fs"; lit "/etc/resolv-vpn.conf"; lit "/etc/resolv.conf"].

Definition statusQuery : Event := Exec (lit "sudo ipsec status") [].
Definition ifaceQuery : Event := Exec (lit "ip a s ppp0") [].
Definition logRead : Event := ReadFile (lit "/var/log/xl2tpd.log") (lit "utf8").

Definition isSymlink (ev : Event) : bool :=
  match ev with
  | Exec c (a :: _) => eqb c (lit "sudo") && eqb a (lit "ln")
  | _ => false
  end.

Definition isDaemonStart (ev : Event) : bool :=
  match ev with
  | Exec c [] =>
      eqb c (lit "sudo ipsec start") || eqb c (lit "sudo xl2tpd -C /tmp/l2tp-control")
  | _ => false
  end.

Definition isStatusQuery (ev : Event) : bool :=
  match ev with
  | Exec c [] => eqb c (lit "sudo ipsec status")
  | _ => false
  end.

(** A command that changes the route table. *)
Definition isRouteMutation (ev : Event) : bool :=
  match ev with
  | Exec c _ =>
      startsWith c (lit "ip route add ") || startsWith c (lit "ip route replace ")
  | _ => false
  end.


(** A step of [createFileWithSudo]. *)
Definition isArtifactStep (ev : Event) : bool :=
  match ev with
  | WriteFile _ _ _ => true
  | Exec c (a :: _) =>
      eqb c (lit "sudo")
      && (eqb a (lit "mkdir") || eqb a (lit "mv") || eqb a (lit "chmod"))
  | _ => false
  end.

(** Both readiness tests pass on the replies to interactions [n] and
    [n + 1], and neither command failed. *)
Definition readyAt (env : Env) (n : nat) : bool :=
  match failure (env n), failure (env (S n)) with
  | None, None =>
      ipsecEstablished (List.concat (stdout (env n)))
      && pppInterfaceUp (List.concat (stdout (env (S n))))
  | _, _ => false
  end.

(** [a] occurs before [b] in a log. *)
Definition precedes (a b : Event) (t : list Event) : Prop :=
  exists t1 t2 t3, t = t1 ++ a :: t2 ++ b :: t3.

(** Reading an [ipsec.conf] text: the [key=value] lines, comments and
    section headers left out. *)
Fixpoint skipBlanks (s : jsstring) : jsstring :=
  match s with
  | c :: s' => if N.eqb c 32 || N.eqb c 9 then skipBlanks s' else s
  | [] => []
  end.

Fixpoint breakAt (c : N) (s : jsstring) : option (jsstring * jsstring) :=
  match s with
  | [] => None
  | d :: s' =>
      if N.eqb d c then Some ([], s')
      else match breakAt c s' with
           | Some (k, v) => Some (d :: k, v)
           | None => None
           end
  end.

Definition confAssignment (line : jsstring) : list (jsstring * jsstring) :=
  match skipBlanks line with
  | [] => []
  | (c :: _) as l =>
      if N.eqb c 35 then []
      else match breakAt 61 l with
           | Some kv => [kv]
           | None => []
           end
  end.

Definition confAssignments (text : jsstring) : list (jsstring * jsstring) :=
  flat_map confAssignment (split LF text).

Definition hasLineFeed (s : jsstring) : bool := existsb (N.eqb LF) s.

(** The queries of the tick that starts in world [w], and the world they
    leave: the interface query is not issued when the status query fails. *)
Definition tickTrace (env : Env) (w : World) : list Event :=
  match failure (env (idx w)) with
  | Some _ => [statusQuery]
  | None => [statusQuery; ifaceQuery]
  end.

Definition tickWorld (env : Env) (w : World) : World :=
  match failure (env (idx w)) with
  | Some _ => advance env w 0
  | None => advance env (advance env w 0) 0
  end.

(** A result with a log put in front of its own. *)
Definition after {A} (t : list Event) (r : Outcome A * World * list Event)
  : Outcome A * World * list Event :=
  match r with
  | (o, w, t') => (o, w, t ++ t')
  end.

(** The steps of the five artifacts, in the order of [createConfigFiles]. *)
Definition configSteps (server username password psk : jsstring) : list Event :=
  artifactSteps (lit "/etc/ipsec.conf") (ipsec_conf server)
  ++ artifactSteps (lit "/etc/ipsec.secrets") (ipsec_secrets server psk)
  ++ artifactSteps (lit "/etc/ppp/options.l2tpd.client")
       (options_l2tpd_client username password)
  ++ artifactSteps (lit "/etc/xl2tpd/xl2tpd.conf") (xl2tpd_conf server)
  ++ artifactSteps (lit "/etc/resolv-vpn.conf") resolv_vpn_conf.

(** What follows the resolver link in the log of [createConfigFiles]: a
    warning when the link was refused, then the closing message. *)
Definition symlinkTail (env : Env) (n : nat) : list Event :=
  match failure (env n) with
  | Some e =>
      [Warning (lit "Failed to create symlink from " ++ lit "/etc/resolv-vpn.conf"
                ++ lit " to " ++ lit "/etc/resolv.conf" ++ lit ": " ++ e);
       Info (lit "All configuration files created successfully.")]
  | None => [Info (lit "All configuration files created successfully.")]
  end.

(** The contents written to the file [path], in order. *)
Definition writtenTo (path : jsstring) (t : list Event) : list jsstring :=
  flat_map
    (fun ev =>
       match ev with
       | WriteFile p c _ => if eqb p path then [c] else []
       | _ => []
       end)
    t.

(** The text of [ipsec.conf] that does not depend on the credentials: all of
    it but the last line. *)
Definition ipsecConfFixed : jsstring :=
  firstn (List.length (ipsec_conf []) - 12) (ipsec_conf []).

(** What [run] does before it generates the configuration. *)
Definition setupSteps : list Event :=
  [ GetInput (lit "server"); GetInput (lit "username");
    GetInput (lit "password"); GetInput (lit "psk");
    Info (lit "Installing necessary tools...");
    Exec (lit "sudo") [lit "apt-get"; lit "update"];
    Exec (lit "sudo") [lit "apt-get"; lit "install"; lit "-y";
                       lit "strongswan"; lit "xl2tpd"] ].

(** What [run] does after it has generated the configuration. *)
Definition connect (fuel : nat) (server : jsstring) : M unit :=
  startVPN fuel server ;;
  payload <- context_payload ;;
  console_log (lit "The event payload: " ++ payload).

(** The number of places of [s] at which [p] occurs. *)
Fixpoint occurrences (p s : jsstring) : nat :=
  (if startsWith s p then 1 else 0)
  + match s with
    | [] => 0
    | _ :: s' => occurrences p s'
    end.

(** [p] occurs at no place of [a ++ b] that lies in [a]. *)
Fixpoint missAll (p a b : jsstring) : bool :=
  match a with
  | [] => true
  | c :: a' => negb (startsWith (c :: a' ++ b) p) && missAll p a' b
  end.

(** A non-empty run of digits. *)
Definition isDigits (d : jsstring) : bool := truthy d && forallb isDigit d.

(** Four runs of digits separated by dots. *)
Definition dottedQuad (d1 d2 d3 d4 : jsstring) : jsstring :=
  d1 ++ dot :: d2 ++ dot :: d3 ++ dot :: d4.

Definition isSetFailed (ev : Event) : bool :=
  match ev with
  | SetFailed _ => true
  | _ => false
  end.

(** The interactions that are outside the two [try] blocks of the source
    and can reject: every read of an input, every write and read of a
    file, every command but the resolver link and the two status
    queries. *)
Definition isFatalStep (ev : Event) : bool :=
  match ev with
  | GetInput _ | WriteFile _ _ _ | ReadFile _ _ => true
  | Exec c [] =>
      negb (eqb c (lit "sudo ipsec status") || eqb c (lit "ip a s ppp0"))
  | Exec _ (_ :: _) => negb (isSymlink ev)
  | _ => false
  end.


(** An event with the content left out when it writes one of [paths]. *)
Definition redactAt (paths : list jsstring) (ev : Event) : Event :=
  match ev with
  | WriteFile p _ m => if existsb (eqb p) paths then WriteFile p [] m else ev
  | _ => ev
  end.

(** Two results that differ at most in the contents written to [paths]. *)
Definition similar (paths : list jsstring) {A}
    (r r' : Outcome A * World * list Event) : Prop :=
  outcomeOf r = outcomeOf r'
  /\ worldOf r = worldOf r'
  /\ map (redactAt paths) (traceOf r) = map (redactAt paths) (traceOf r').

(** Two computations that, run from the same world in environments that
    agree from that world on, differ at most in the contents written to
    [paths]. *)
Definition local (paths : list jsstring) {A} (m m' : M A) : Prop :=
  forall env env' w,
    (forall i, idx w <= i -> env i = env' i) ->
    similar paths (m env w) (m' env' w).

(** What [main] does once it has read its four inputs. *)
Definition afterInputs (fuel : nat) (server username password psk : jsstring)
  : M unit :=
  core_info (lit "Installing necessary tools...") ;;
  installTools ;;
  createConfigFiles server username password psk ;;
  startVPN fuel server ;;
  payload <- context_payload ;;
  console_log (lit "The event payload: " ++ payload).

Definition isConsoleLog (ev : Event) : bool :=
  match ev with
  | ConsoleLog _ => true
  | _ => false
  end.

(** The last five interactions of a run that went through. *)
Definition closingSteps (server gateway payload : jsstring) : list Event :=
  [ Exec (routeGet server) [];
    Exec (routeAdd server gateway) [];
    Exec routeReplace [];
    ContextPayload;
    ConsoleLog (lit "The event payload: " ++ payload) ].

(** The files that [createConfigFiles] generates, each with its content,
    in the order of its five calls of [createFileWithSudo]. *)
Definition artifacts (server username password psk : jsstring)
  : list (jsstring * jsstring) :=
  [ (lit "/etc/ipsec.conf", ipsec_conf server);
    (lit "/etc/ipsec.secrets", ipsec_secrets server psk);
    (lit "/etc/ppp/options.l2tpd.client", options_l2tpd_client username password);
    (lit "/etc/xl2tpd/xl2tpd.conf", xl2tpd_conf server);
    (lit "/etc/resolv-vpn.conf", resolv_vpn_conf) ].

(** [createFileWithSudo] called on each of [files] in turn, then [k]. *)
Fixpoint writeAllThen (files : list (jsstring * jsstring)) (k : M unit) : M unit :=
  match files with
  | [] => k
  | (path, content) :: rest => createFileWithSudo path content ;; writeAllThen rest k
  end.

(** An interaction that gives a file a mode: a write with a mode among
    its options, or a [sudo chmod]. *)
Definition setsMode (ev : Event) : bool :=
  match ev with
  | WriteFile _ _ (Some _) => true
  | Exec c (a :: _) => eqb c (lit "sudo") && eqb a (lit "chmod")
  | _ => false
  end.

(** The addition of a route. *)
Definition isRouteAdd (ev : Event) : bool :=
  match ev with
  | Exec c _ => startsWith c (lit "ip route add ")
  | _ => false
  end.


(** ** Properties of a computation's log *)

(** The interaction counter moves by one per logged event. *)
Definition counted {A} (m : M A) : Prop :=
  forall env w, idx (worldOf (m env w)) = idx w + List.length (traceOf (m env w)).

(** No event of class [Q] is ever logged. *)
Definition quiet (Q : Event -> bool) {A} (m : M A) : Prop :=
  forall env w, existsb Q (traceOf (m env w)) = false.

(** Whenever an event of class [P] is rejected by the environment, the
    computation stops right there and throws that rejection. *)
Definition fatal (P : Event -> bool) {A} (m : M A) : Prop :=
  forall env w pre ev post e,
    traceOf (m env w) = pre ++ ev :: post ->
    P ev = true ->
    failure (env (idx w + List.length pre)) = Some e ->
    post = [] /\ outcomeOf (m env w) = Throw e.

(** ** Sample environments *)

Definition quietReply : Reply :=
  {| failure := None; stdout := []; text := []; elapsed := 0 |}.

Definition failedReply (msg : jsstring) : Reply :=
  {| failure := Some msg; stdout := []; text := []; elapsed := 0 |}.

Definition printedReply (chunks : list jsstring) : Reply :=
  {| failure := None; stdout := chunks; text := []; elapsed := 0 |}.

(** Every command succeeds and prints nothing. *)
Definition envQuiet : Env := fun _ => quietReply.


(** [ip route get] answers with a gateway, every other command is silent. *)
Definition envGateway : Env := fun n =>
  match n with
  | 0 => printedReply [lit "203.0.113.5 via 172.17.0.1 dev eth0 src 172.17.0.2"]
  | _ => quietReply
  end.

(** [ip route get] answers with a directly connected route. *)
Definition envNoGateway : Env := fun n =>
  match n with
  | 0 => printedReply [lit "203.0.113.5 dev eth0 src 172.17.0.2"]
  | _ => quietReply
  end.

(** Both status commands fail, whatever happens. *)
Definition envDown : Env := fun _ =>
  failedReply (lit "The process '/usr/bin/sudo' failed with exit code 3").

(** The tunnel comes up during the second tick: interactions 0 to 2 are a
    tick in which nothing is reported, interactions 3 and 4 the two
    queries of a tick in which both tests pass. *)
Definition envUpAtSecondTick : Env := fun n =>
  match n with
  | 3 => printedReply [lit "Security Associations (1 up, 0 connecting):";
                       LF :: lit "    L2TP-PSK[1]: ESTABLISHED 1 second ago"]
  | 4 => printedReply [lit "4: ppp0: <POINTOPOINT,UP> mtu 1410" ++ [LF];
                       lit "    inet 10.0.0.5/24 scope global ppp0" ++ [LF]]
  | _ => quietReply
  end.



(** Commands succeed at once and print nothing; files read as one line of
    the daemon log. *)
Definition envSilent : Env := fun _ =>
  {| failure := None; stdout := [];
     text := lit "xl2tpd[812]: Maximum retries exceeded for tunnel 4711.";
     elapsed := 0 |}.

(** The IPsec daemon cannot be started. *)
Definition envDaemonRefused : Env := fun n =>
  match n with
  | 30 => failedReply (lit "The process '/usr/bin/sudo' failed with exit code 1")
  | _ => quietReply
  end.

(** [startVPN] from the first interaction on: both daemons start, the
    first tick finds the tunnel up, and the route query names a gateway. *)
Definition envTunnelUp : Env := fun n =>
  match n with
  | 4 => printedReply [lit "    L2TP-PSK[1]: ESTABLISHED 1 second ago" ++ [LF]]
  | 5 => printedReply [lit "    inet 10.0.0.5/24 scope global ppp0" ++ [LF]]
  | 8 => printedReply [lit "203.0.113.5 via 172.17.0.1 dev eth0 src 172.17.0.2"]
  | _ => quietReply
  end.

Definition inputReply (value : jsstring) : Reply :=
  {| failure := None; stdout := []; text := value; elapsed := 0 |}.

(** Two runs with the same server and key, and different accounts. *)
Definition envAlice : Env := fun n =>
  match n with
  | 0 => inputReply (lit "203.0.113.5")
  | 1 => inputReply (lit "alice")
  | 2 => inputReply (lit "pa55")
  | 3 => inputReply (lit "s3cret")
  | _ => quietReply
  end.

Definition envBob : Env := fun n =>
  match n with
  | 0 => inputReply (lit "203.0.113.5")
  | 1 => inputReply (lit "bob")
  | 2 => inputReply (lit "hunter2")
  | 3 => inputReply (lit "s3cret")
  | _ => quietReply
  end.

(** A whole run in which everything succeeds: the inputs, the tools, the
    configuration, the daemons, a first tick that finds the tunnel up, and
    a route query that names a gateway. *)
Definition envRunUp : Env := fun n =>
  match n with
  | 0 => inputReply (lit "203.0.113.5")
  | _ => if n <? 29 then quietReply else envTunnelUp (n - 29)
  end.


(** * Properties *)

(** ** The string functions on examples *)

Example split_path :
  split slash (lit "/etc/ppp/options.l2tpd.client")
  = [[]; lit "etc"; lit "ppp"; lit "options.l2tpd.client"].
Proof. reflexivity. Qed.

Example trim_inet_line :
  startsWith (trim (lit "    inet 10.0.0.5/24 scope global ppp0  ")) (lit "inet ") = true.
Proof. reflexivity. Qed.

Example trim_bare_inet : startsWith (trim (lit "  inet ")) (lit "inet ") = false.
Proof. reflexivity. Qed.

Example established_same_line :
  testEstablished (lit "  L2TP-PSK[1]: ESTABLISHED 2 seconds ago") = true.
Proof. reflexivity. Qed.

Example established_not_across_lines :
  testEstablished (lit "L2TP-PSK[1]: CONNECTING" ++ [LF] ++ lit "other: ESTABLISHED") = false.
Proof. reflexivity. Qed.

Example via_gateway :
  matchVia (lit "203.0.113.5 via 172.17.0.1 dev eth0 src 172.17.0.2")
  = Some (lit "172.17.0.1").
Proof. reflexivity. Qed.

Example via_absent : matchVia (lit "203.0.113.5 dev eth0 src 172.17.0.2") = None.
Proof. reflexivity. Qed.

Example via_longest_digits :
  matchVia (lit "via 10.0.0.123x") = Some (lit "10.0.0.123").
Proof. reflexivity. Qed.

Example via_needs_four_groups : matchVia (lit "via 10.0.0. dev eth0") = None.
Proof. reflexivity. Qed.

Example conf_line : confAssignment (lit "    auto=start") = [(lit "auto", lit "start")].
Proof. reflexivity. Qed.

Example conf_comment : confAssignment (lit "    # auto=start") = [].
Proof. reflexivity. Qed.

(** ** Evaluating the primitives *)

Lemma attempt_eq {A} (ev : Event) (f : Reply -> A) env w :
  attempt ev f env w
  = match failure (env (idx w)) with
    | Some e => (Throw e, advance env w 0, [ev])
    | None => (Ok (f (env (idx w))), advance env w 0, [ev])
    end.
Proof.
  unfold attempt, bind, interact.
  destruct (failure (env (idx w))); reflexivity.
Qed.

Lemma emit_eq (ev : Event) env w :
  emit ev env w = (Ok tt, advance env w 0, [ev]).
Proof. reflexivity. Qed.

Lemma sleep_eq (ms : Z) env w :
  sleep ms env w = (Ok tt, advance env w (timerDelay ms), [Sleep ms]).
Proof. reflexivity. Qed.

Lemma bind_eq {A B} (m : M A) (k : A -> M B) env w :
  bind m k env w
  = match m env w with
    | (Ok a, w1, t1) =>
        match k a env w1 with
        | (o, w2, t2) => (o, w2, t1 ++ t2)
        end
    | (Throw e, w1, t1) => (Throw e, w1, t1)
    | (Diverge, w1, t1) => (Diverge, w1, t1)
    end.
Proof. reflexivity. Qed.

Lemma advance_idx env w c : idx (advance env w c) = S (idx w).
Proof. reflexivity. Qed.

(** ** Runs of fatal steps *)

Lemma attemptAll_fail steps : forall env w n e,
  n < List.length steps ->
  (forall m, m < n -> failure (env (idx w + m)) = None) ->
  failure (env (idx w + n)) = Some e ->
  exists w', attemptAll steps env w = (Throw e, w', firstn (S n) steps)
             /\ idx w' = idx w + S n.
Proof.
  induction steps as [|ev rest IH]; intros env w n e Hn Hbefore Hfail;
    simpl in Hn; [lia|].
  cbn [attemptAll]. rewrite bind_eq, attempt_eq.
  destruct n as [|n].
  - rewrite Nat.add_0_r in Hfail. rewrite Hfail.
    exists (advance env w 0). split; [reflexivity|].
    rewrite advance_idx; lia.
  - assert (H0 : failure (env (idx w)) = None).
    { specialize (Hbefore 0). rewrite Nat.add_0_r in Hbefore.
      apply Hbefore; lia. }
    rewrite H0.
    destruct (IH env (advance env w 0) n e) as (w' & Heq & Hidx).
    + lia.
    + intros m Hm. rewrite advance_idx.
      replace (S (idx w) + m) with (idx w + S m) by lia.
      apply Hbefore; lia.
    + rewrite advance_idx.
      replace (S (idx w) + n) with (idx w + S n) by lia. exact Hfail.
    + rewrite Heq. exists w'. split; [reflexivity|].
      rewrite Hidx, advance_idx; lia.
Qed.

(** Either every step succeeds, or the run stops at the first one that
    rejects, with that rejection. *)
Lemma attemptAll_cases steps env w :
  (exists w', attemptAll steps env w = (Ok tt, w', steps)
              /\ idx w' = idx w + List.length steps
              /\ forall n, n < List.length steps -> failure (env (idx w + n)) = None)
  \/ (exists n e w', n < List.length steps
              /\ (forall m, m < n -> failure (env (idx w + m)) = None)
              /\ failure (env (idx w + n)) = Some e
              /\ attemptAll steps env w = (Throw e, w', firstn (S n) steps)
              /\ idx w' = idx w + S n).
Proof.
  revert env w.
  induction steps as [|ev rest IH]; intros env w.
  - left. exists w. simpl. repeat split; [lia | intros; lia].
  - destruct (failure (env (idx w))) as [e|] eqn:H0.
    + right. exists 0, e.
      destruct (@attemptAll_fail (ev :: rest) env w 0 e) as (w' & Heq & Hidx).
      * simpl; lia.
      * intros; lia.
      * rewrite Nat.add_0_r; exact H0.
      * exists w'. repeat split; try assumption.
        -- simpl; lia.
        -- intros; lia.
        -- rewrite Nat.add_0_r; exact H0.
    + destruct (IH env (advance env w 0))
        as [(w' & Heq & Hidx & Hall) | (n & e & w' & Hn & Hbefore & Hfail & Heq & Hidx)].
      * left. exists w'. cbn [attemptAll]. rewrite bind_eq, attempt_eq, H0, Heq.
        repeat split.
        -- rewrite Hidx, advance_idx; simpl; lia.
        -- intros [|n] Hn; [rewrite Nat.add_0_r; exact H0|].
           specialize (Hall n). rewrite advance_idx in Hall.
           replace (idx w + S n) with (S (idx w) + n) by lia.
           apply Hall; simpl in Hn; lia.
      * right. exists (S n), e, w'.
        rewrite advance_idx in *.
        cbn [attemptAll]. rewrite bind_eq, attempt_eq, H0, Heq.
        repeat split.
        -- simpl; lia.
        -- intros [|m] Hm; [rewrite Nat.add_0_r; exact H0|].
           replace (idx w + S m) with (S (idx w) + m) by lia.
           apply Hbefore; lia.
        -- replace (idx w + S n) with (S (idx w) + n) by lia. exact Hfail.
        -- lia.
Qed.

(** [createFileWithSudo] is the run of its four (or three) steps. *)
Lemma createFileWithSudo_steps path content env w :
  createFileWithSudo path content env w
  = attemptAll (artifactSteps path content) env w.
Proof.
  unfold createFileWithSudo, artifactSteps, fs_writeFile, exec,
    writeStep, mkdirStep, mvStep, chmodStep.
  destruct (truthy (dirname path));
    cbv beta iota delta [attemptAll bind attempt interact ret throw app];
    repeat match goal with
           | |- context [failure ?r] => destruct (failure r)
           end;
    reflexivity.
Qed.

(** ** The temporary path and the directory of a path *)

Lemma split_pop_last sep s :
  exists base,
    pop (split sep s) = Some base
    /\ ~ In sep base
    /\ ((split sep s = [base] /\ s = base)
        \/ (exists d p rest, split sep s = p :: rest /\ rest <> []
                             /\ s = d ++ sep :: base)).
Proof.
  induction s as [|c s IH].
  - exists []. simpl. split; [reflexivity|]. split; [tauto|]. left. split; reflexivity.
  - destruct IH as (base & Hpop & Hnot & Hshape).
    cbn [split]. destruct (N.eqb_spec c sep) as [->|Hne].
    + exists base. split.
      * destruct (split sep s) as [|p l]; [discriminate Hpop | exact Hpop].
      * split; [exact Hnot|]. right.
        destruct Hshape as [(Hs & ->) | (d & p & rest & Hs & Hrest & ->)].
        -- exists [], [], (split sep base). rewrite Hs.
           repeat split. discriminate.
        -- exists (sep :: d), [], (split sep (d ++ sep :: base)). rewrite Hs.
           repeat split. discriminate.
    + destruct Hshape as [(Hs & ->) | (d & p & rest & Hs & Hrest & ->)].
      * rewrite Hs. exists (c :: base). split; [reflexivity|]. split.
        -- intros [Heq | Hin]; [congruence | exact (Hnot Hin)].
        -- left. split; reflexivity.
      * rewrite Hs in *. exists base. split.
        -- destruct rest as [|q rest]; [congruence|]. exact Hpop.
        -- split; [exact Hnot|]. right.
           exists (c :: d), (c :: p), rest. repeat split. exact Hrest.
Qed.

Lemma lastIndexOf_from_absent c s : forall i acc,
  ~ In c s -> lastIndexOf_from c s i acc = acc.
Proof.
  induction s as [|d s IH]; intros i acc Hnot; simpl; [reflexivity|].
  destruct (N.eqb_spec d c) as [->|Hne].
  - exfalso. apply Hnot. left. reflexivity.
  - apply IH. intros Hin. apply Hnot. right. exact Hin.
Qed.

Lemma lastIndexOf_from_last c d base : forall i acc,
  ~ In c base ->
  lastIndexOf_from c (d ++ c :: base) i acc = (i + Z.of_nat (List.length d))%Z.
Proof.
  induction d as [|x d IH]; intros i acc Hnot.
  - simpl. rewrite N.eqb_refl. rewrite lastIndexOf_from_absent by exact Hnot. lia.
  - cbn [app lastIndexOf_from]. rewrite IH by exact Hnot.
    cbn [List.length]. lia.
Qed.

Lemma dirname_no_slash path : ~ In slash path -> dirname path = [].
Proof.
  intros Hnot. unfold dirname, lastIndexOf.
  rewrite lastIndexOf_from_absent by exact Hnot.
  unfold substring.
  replace (Z.max 0 (Z.min (-1) (Z.of_nat (List.length path)))) with 0%Z by lia.
  replace (Z.max 0 (Z.min 0 (Z.of_nat (List.length path)))) with 0%Z by lia.
  reflexivity.
Qed.

Lemma dirname_before_last_slash d base :
  ~ In slash base -> dirname (d ++ slash :: base) = d.
Proof.
  intros Hnot. unfold dirname, lastIndexOf.
  rewrite lastIndexOf_from_last by exact Hnot.
  unfold substring.
  set (len := Z.of_nat (List.length (d ++ slash :: base))).
  assert (Hlen : (Z.of_nat (List.length d) < len)%Z).
  { unfold len. rewrite length_app. cbn [List.length]. lia. }
  replace (Z.max 0 (Z.min 0 len)) with 0%Z by lia.
  replace (Z.max 0 (Z.min (0 + Z.of_nat (List.length d)) len))
    with (Z.of_nat (List.length d)) by lia.
  replace (Z.min 0 (Z.of_nat (List.length d))) with 0%Z by lia.
  replace (Z.max 0 (Z.of_nat (List.length d))) with (Z.of_nat (List.length d)) by lia.
  rewrite Z.sub_0_r, Nat2Z.id. cbn [Z.to_nat skipn].
  rewrite firstn_app, Nat.sub_diag, firstn_all. cbn [firstn]. apply app_nil_r.
Qed.

(** The temporary file is [/tmp/] followed by what comes after the last
    slash of the path; the directory is what comes before it. *)
Lemma tempFile_dirname path :
  exists dir base,
    ~ In slash base
    /\ tempFile path = lit "/tmp/" ++ base
    /\ dirname path = dir
    /\ ((path = base /\ dir = []) \/ path = dir ++ slash :: base).
Proof.
  destruct (split_pop_last slash path) as (base & Hpop & Hnot & Hshape).
  destruct Hshape as [(_ & Hp) | (d & _ & _ & _ & _ & Hp)].
  - exists [], base. unfold tempFile. rewrite Hpop. cbn [interp].
    repeat split; try assumption.
    + apply dirname_no_slash. rewrite Hp. exact Hnot.
    + left. split; [exact Hp | reflexivity].
  - exists d, base. unfold tempFile. rewrite Hpop. cbn [interp].
    repeat split; try assumption.
    + rewrite Hp. apply dirname_before_last_slash. exact Hnot.
    + right. exact Hp.
Qed.

(** ** createFileWithSudo: the order of the steps *)

(** The log of a successful call, whatever the path: the directory is
    created only when the path has a directory part. *)
Lemma createFileWithSudo_log path content env w w' t :
  createFileWithSudo path content env w = (Ok tt, w', t) ->
  exists dir base,
    ~ In slash base
    /\ dirname path = dir
    /\ ((path = base /\ dir = []) \/ path = dir ++ slash :: base)
    /\ t = WriteFile (lit "/tmp/" ++ base) content None
           :: (if truthy dir
               then [Exec (lit "sudo") [lit "mkdir"; lit "-p"; dir]]
               else [])
           ++ [Exec (lit "sudo") [lit "mv"; lit "/tmp/" ++ base; path];
               Exec (lit "sudo") [lit "chmod"; lit "600"; path]].
Proof.
  intros Hrun. rewrite createFileWithSudo_steps in Hrun.
  destruct (attemptAll_cases (artifactSteps path content) env w)
    as [(w1 & Heq & _) | (n & e & w1 & _ & _ & _ & Heq & _)];
    rewrite Heq in Hrun; [|discriminate Hrun].
  injection Hrun as _ Ht. subst t.
  destruct (tempFile_dirname path) as (dir & base & Hnot & Htmp & Hdir & Hshape).
  exists dir, base. split; [exact Hnot|]. split; [exact Hdir|].
  split; [exact Hshape|].
  unfold artifactSteps, writeStep, mkdirStep, mvStep, chmodStep.
  rewrite Htmp, Hdir. reflexivity.
Qed.

(** C10: the calls of [createFileWithSudo] are the five of
    [createConfigFiles], one per artifact, and each path has a directory
    part.  In every one of them that succeeds, whatever the content, the
    content is first written to [/tmp/] followed by the last component of
    the final path, with no mode among the options of the write, so with
    the default permissions of the process; then the parent directory is
    created; then the file is moved to its final path; and only then, as
    the last step, is its mode set to 600.  No step before the last one
    gives the file a mode: the content is at the temporary path, and after
    the move at the final path, before the restrictive mode is in force. *)
Theorem chmod_is_the_last_step server username password psk :
  createConfigFiles server username password psk
  = writeAllThen (artifacts server username password psk)
      (createSymlinkWithSudo (lit "/etc/resolv.conf") (lit "/etc/resolv-vpn.conf") ;;
       core_info (lit "All configuration files created successfully."))
  /\ forall path content env w w' t,
       In path (map fst (artifacts server username password psk)) ->
       createFileWithSudo path content env w = (Ok tt, w', t) ->
       exists dir base,
         path = dir ++ slash :: base
         /\ truthy dir = true
         /\ ~ In slash base
         /\ t = [ WriteFile (lit "/tmp/" ++ base) content None;
                  Exec (lit "sudo") [lit "mkdir"; lit "-p"; dir];
                  Exec (lit "sudo") [lit "mv"; lit "/tmp/" ++ base; path];
                  Exec (lit "sudo") [lit "chmod"; lit "600"; path] ]
         /\ existsb setsMode (firstn 3 t) = false
         /\ existsb setsMode (skipn 3 t) = true.
Proof.
  split; [reflexivity|].
  intros path content env w w' t Hin Hrun.
  destruct (createFileWithSudo_log _ _ _ _ Hrun)
    as (dir & base & Hnot & Hdir & Hshape & Ht).
  assert (Htruthy : truthy dir = true).
  { rewrite <- Hdir. cbn [artifacts map fst] in Hin.
    destruct Hin as [<- | [<- | [<- | [<- | [<- | []]]]]]; reflexivity. }
  exists dir, base.
  destruct Hshape as [[_ Hempty] | Hpath];
    [rewrite Hempty in Htruthy; discriminate Htruthy|].
  rewrite Htruthy in Ht. cbn [app] in Ht.
  split; [exact Hpath|]. split; [exact Htruthy|]. split; [exact Hnot|].
  split; [exact Ht|]. rewrite Ht. split; reflexivity.
Qed.

Lemma chmod_is_the_last_step_witness :
  exists dir base,
    lit "/etc/ipsec.secrets" = dir ++ slash :: base
    /\ truthy dir = true
    /\ ~ In slash base
    /\ [WriteFile (lit "/tmp/ipsec.secrets") (ipsec_secrets (lit "203.0.113.5") (lit "s3cret")) None;
        Exec (lit "sudo") [lit "mkdir"; lit "-p"; lit "/etc"];
        Exec (lit "sudo") [lit "mv"; lit "/tmp/ipsec.secrets"; lit "/etc/ipsec.secrets"];
        Exec (lit "sudo") [lit "chmod"; lit "600"; lit "/etc/ipsec.secrets"]]
       = [ WriteFile (lit "/tmp/" ++ base) (ipsec_secrets (lit "203.0.113.5") (lit "s3cret")) None;
           Exec (lit "sudo") [lit "mkdir"; lit "-p"; dir];
           Exec (lit "sudo") [lit "mv"; lit "/tmp/" ++ base; lit "/etc/ipsec.secrets"];
           Exec (lit "sudo") [lit "chmod"; lit "600"; lit "/etc/ipsec.secrets"] ]
    /\ existsb setsMode
         (firstn 3
            [WriteFile (lit "/tmp/ipsec.secrets") (ipsec_secrets (lit "203.0.113.5") (lit "s3cret")) None;
             Exec (lit "sudo") [lit "mkdir"; lit "-p"; lit "/etc"];
             Exec (lit "sudo") [lit "mv"; lit "/tmp/ipsec.secrets"; lit "/etc/ipsec.secrets"];
             Exec (lit "sudo") [lit "chmod"; lit "600"; lit "/etc/ipsec.secrets"]])
       = false
    /\ existsb setsMode
         (skipn 3
            [WriteFile (lit "/tmp/ipsec.secrets") (ipsec_secrets (lit "203.0.113.5") (lit "s3cret")) None;
             Exec (lit "sudo") [lit "mkdir"; lit "-p"; lit "/etc"];
             Exec (lit "sudo") [lit "mv"; lit "/tmp/ipsec.secrets"; lit "/etc/ipsec.secrets"];
             Exec (lit "sudo") [lit "chmod"; lit "600"; lit "/etc/ipsec.secrets"]])
       = true.
Proof.
  apply (proj2 (chmod_is_the_last_step (lit "203.0.113.5") (lit "alice")
                  (lit "pa55") (lit "s3cret"))
           (lit "/etc/ipsec.secrets") (ipsec_secrets (lit "203.0.113.5") (lit "s3cret"))
           envQuiet world0 {| idx := 4; clock := 0 |}).
  - right. left. reflexivity.
  - reflexivity.
Defined.

(** ** Logs of composed computations *)

Lemma bind_trace {A B} (m : M A) (k : A -> M B) env w :
  traceOf (bind m k env w)
  = match m env w with
    | (Ok a, w1, t1) => t1 ++ traceOf (k a env w1)
    | (_, _, t1) => t1
    end.
Proof.
  unfold bind. destruct (m env w) as [[[a|e|] w1] t1]; try reflexivity.
  destruct (k a env w1) as [[o w2] t2]. reflexivity.
Qed.

Lemma try_catch_trace {A} (m : M A) (h : jsstring -> M A) env w :
  traceOf (try_catch m h env w)
  = match m env w with
    | (Throw e, w1, t1) => t1 ++ traceOf (h e env w1)
    | (_, _, t1) => t1
    end.
Proof.
  unfold try_catch. destruct (m env w) as [[[a|e|] w1] t1]; try reflexivity.
  destruct (h e env w1) as [[o w2] t2]. reflexivity.
Qed.

Ltac observe := unfold worldOf, traceOf, outcomeOf in *; cbn [fst snd] in *.

Lemma counted_ret {A} (a : A) : counted (ret a).
Proof. intros env w. observe. simpl. lia. Qed.

Lemma counted_throw {A} e : counted (@throw A e).
Proof. intros env w. observe. simpl. lia. Qed.

Lemma counted_diverge {A} : counted (@diverge A).
Proof. intros env w. observe. simpl. lia. Qed.

Lemma counted_Date_now : counted Date_now.
Proof. intros env w. observe. simpl. lia. Qed.

Lemma counted_interact ev c : counted (interact ev c).
Proof. intros env w. observe. simpl. lia. Qed.

Lemma counted_bind {A B} (m : M A) (k : A -> M B) :
  counted m -> (forall a, counted (k a)) -> counted (bind m k).
Proof.
  intros Hm Hk env w. specialize (Hm env w).
  unfold bind. observe.
  destruct (m env w) as [[[a|e|] w1] t1]; cbn [fst snd] in *; try exact Hm.
  specialize (Hk a env w1). observe.
  destruct (k a env w1) as [[o w2] t2]. cbn [fst snd] in *.
  rewrite length_app. lia.
Qed.

Lemma counted_try_catch {A} (m : M A) (h : jsstring -> M A) :
  counted m -> (forall e, counted (h e)) -> counted (try_catch m h).
Proof.
  intros Hm Hh env w. specialize (Hm env w).
  unfold try_catch. observe.
  destruct (m env w) as [[[a|e|] w1] t1]; cbn [fst snd] in *; try exact Hm.
  specialize (Hh e env w1). observe.
  destruct (h e env w1) as [[o w2] t2]. cbn [fst snd] in *.
  rewrite length_app. lia.
Qed.

Lemma counted_attempt {A} ev (f : Reply -> A) : counted (attempt ev f).
Proof.
  intros env w. rewrite attempt_eq.
  destruct (failure (env (idx w))); observe; simpl; lia.
Qed.

Lemma counted_emit ev : counted (emit ev).
Proof. intros env w. observe. simpl. lia. Qed.

Lemma counted_sleep ms : counted (sleep ms).
Proof. intros env w. observe. simpl. lia. Qed.

Section Quiet.

Variable Q : Event -> bool.

Lemma quiet_ret {A} (a : A) : quiet Q (ret a).
Proof. intros env w. reflexivity. Qed.

Lemma quiet_throw {A} e : quiet Q (@throw A e).
Proof. intros env w. reflexivity. Qed.

Lemma quiet_diverge {A} : quiet Q (@diverge A).
Proof. intros env w. reflexivity. Qed.

Lemma quiet_Date_now : quiet Q Date_now.
Proof. intros env w. reflexivity. Qed.

Lemma quiet_bind {A B} (m : M A) (k : A -> M B) :
  quiet Q m -> (forall a, quiet Q (k a)) -> quiet Q (bind m k).
Proof.
  intros Hm Hk env w. rewrite bind_trace. specialize (Hm env w).
  destruct (m env w) as [[[a|e|] w1] t1]; observe; try exact Hm.
  rewrite existsb_app, Hm. apply Hk.
Qed.

Lemma quiet_try_catch {A} (m : M A) (h : jsstring -> M A) :
  quiet Q m -> (forall e, quiet Q (h e)) -> quiet Q (try_catch m h).
Proof.
  intros Hm Hh env w. rewrite try_catch_trace. specialize (Hm env w).
  destruct (m env w) as [[[a|e|] w1] t1]; observe; try exact Hm.
  rewrite existsb_app, Hm. apply Hh.
Qed.

Lemma quiet_attempt {A} ev (f : Reply -> A) : Q ev = false -> quiet Q (attempt ev f).
Proof.
  intros H env w. rewrite attempt_eq.
  destruct (failure (env (idx w))); observe; simpl; rewrite H; reflexivity.
Qed.

Lemma quiet_emit ev : Q ev = false -> quiet Q (emit ev).
Proof. intros H env w. observe. simpl. rewrite H. reflexivity. Qed.

Lemma quiet_sleep ms : Q (Sleep ms) = false -> quiet Q (sleep ms).
Proof. intros H env w. observe. simpl. rewrite H. reflexivity. Qed.

Lemma quiet_payload : Q ContextPayload = false -> quiet Q context_payload.
Proof. intros H env w. observe. simpl. rewrite H. reflexivity. Qed.

End Quiet.

Section Fatal.

Variable P : Event -> bool.

Lemma fatal_quiet {A} (m : M A) : quiet P m -> fatal P m.
Proof.
  intros Hq env w pre ev post e Ht HP _. specialize (Hq env w).
  rewrite Ht, existsb_app in Hq. simpl in Hq. rewrite HP in Hq.
  rewrite orb_true_r in Hq. discriminate Hq.
Qed.

Lemma fatal_attempt {A} ev (f : Reply -> A) : fatal P (attempt ev f).
Proof.
  intros env w pre ev' post e Ht _ Hfail.
  assert (Hshape : pre = [] /\ post = []).
  { rewrite attempt_eq in Ht.
    destruct (failure (env (idx w))); observe;
      destruct pre as [|x [|y pre]]; try discriminate Ht;
      injection Ht as _ <-; split; reflexivity. }
  destruct Hshape as [-> ->]. split; [reflexivity|].
  simpl in Hfail. rewrite Nat.add_0_r in Hfail.
  rewrite attempt_eq, Hfail. reflexivity.
Qed.

Lemma fatal_bind {A B} (m : M A) (k : A -> M B) :
  counted m -> fatal P m -> (forall a, fatal P (k a)) -> fatal P (bind m k).
Proof.
  intros Hc Hm Hk env w pre ev post e Ht HP Hfail.
  specialize (Hc env w). specialize (Hm env w).
  rewrite bind_trace in Ht. unfold bind. observe.
  destruct (m env w) as [[[a|e1|] w1] t1] eqn:Em; cbn [fst snd] in *;
    cbn beta iota in Ht;
    try (destruct (Hm pre ev post e Ht HP Hfail) as [Hpost Ho];
         split; [exact Hpost | congruence]).
  specialize (Hk a env w1). observe.
  destruct (k a env w1) as [[o w2] t2] eqn:Ek. cbn [fst snd] in *.
  apply app_eq_app in Ht. destruct Ht as (l & [[H1 H2] | [H1 H2]]).
  - destruct l as [|x l].
    + rewrite app_nil_r in H1. simpl in H2. subst t1.
      apply (Hk [] ev post e); [symmetry; exact H2 | exact HP |].
      simpl. rewrite Hc, Nat.add_0_r. exact Hfail.
    + simpl in H2. injection H2 as <- ->.
      destruct (Hm pre ev l e H1 HP Hfail) as [_ Ho]. discriminate Ho.
  - subst pre. apply (Hk l ev post e); [exact H2 | exact HP |].
    rewrite Hc. rewrite length_app, Nat.add_assoc in Hfail. exact Hfail.
Qed.

End Fatal.

(** ** The logs of the program's functions *)

Lemma counted_pollLoop fuel start timeout interval :
  counted (pollLoop fuel start timeout interval).
Proof.
  induction fuel as [|fuel IH]; cbn [pollLoop]; [apply counted_diverge|].
  apply counted_bind; [apply counted_Date_now | intro now].
  destruct (now - start <? timeout)%Z; [|apply counted_ret].
  apply counted_bind.
  - apply counted_try_catch; [|intro; apply counted_ret].
    unfold pollOnce, exec_stdout.
    repeat (apply counted_bind; [apply counted_attempt | intro]).
    apply counted_ret.
  - intros [|]; [apply counted_ret|].
    apply counted_bind; [apply counted_sleep | intro; exact IH].
Qed.

Ltac counted_tac :=
  repeat lazymatch goal with
    | |- counted (bind _ _) => apply counted_bind; [|intro]
    | |- counted (try_catch _ _) => apply counted_try_catch; [|intro]
    | |- counted (ret _) => apply counted_ret
    | |- counted (throw _) => apply counted_throw
    | |- counted diverge => apply counted_diverge
    | |- counted Date_now => apply counted_Date_now
    | |- counted (attempt _ _) => apply counted_attempt
    | |- counted (emit _) => apply counted_emit
    | |- counted (sleep _) => apply counted_sleep
    | |- counted (interact _ _) => apply counted_interact
    | |- counted context_payload => apply counted_bind; [|intro]
    | |- counted (pollLoop _ _ _ _) => apply counted_pollLoop
    | |- counted (if ?b then _ else _) => destruct b
    | |- counted (match ?x with Some _ => _ | None => _ end) => destruct x
    | |- counted (let x := _ in _) => cbv zeta
    end.

Lemma counted_waitForVpnConnection fuel timeout interval :
  counted (waitForVpnConnection fuel timeout interval).
Proof. unfold waitForVpnConnection, fs_readFile. counted_tac. Qed.

Section QuietProgram.

Variable Q : Event -> bool.
Hypothesis Q_status : Q statusQuery = false.
Hypothesis Q_iface : Q ifaceQuery = false.
Hypothesis Q_sleep : forall ms, Q (Sleep ms) = false.

Lemma quiet_pollOnce : quiet Q pollOnce.
Proof.
  unfold pollOnce, exec_stdout.
  apply quiet_bind; [apply quiet_attempt; exact Q_status | intro].
  apply quiet_bind; [apply quiet_attempt; exact Q_iface | intro].
  apply quiet_ret.
Qed.

Lemma quiet_pollLoop fuel start timeout interval :
  quiet Q (pollLoop fuel start timeout interval).
Proof.
  induction fuel as [|fuel IH]; cbn [pollLoop]; [apply quiet_diverge|].
  apply quiet_bind; [apply quiet_Date_now | intro now].
  destruct (now - start <? timeout)%Z; [|apply quiet_ret].
  apply quiet_bind.
  - apply quiet_try_catch; [apply quiet_pollOnce | intro; apply quiet_ret].
  - intros [|]; [apply quiet_ret|].
    apply quiet_bind; [apply quiet_sleep, Q_sleep | intro; exact IH].
Qed.

Hypothesis Q_log : Q logRead = false.

Lemma quiet_waitForVpnConnection fuel timeout interval :
  quiet Q (waitForVpnConnection fuel timeout interval).
Proof.
  unfold waitForVpnConnection, fs_readFile.
  apply quiet_bind; [apply quiet_Date_now | intro start].
  apply quiet_bind; [apply quiet_pollLoop | intros [v|]]; [apply quiet_ret|].
  apply quiet_bind; [apply quiet_attempt; exact Q_log | intro; apply quiet_throw].
Qed.

End QuietProgram.

Ltac quiet_tac :=
  repeat lazymatch goal with
    | |- quiet _ (bind _ _) => apply quiet_bind; [|intro]
    | |- quiet _ (try_catch _ _) => apply quiet_try_catch; [|intro]
    | |- quiet _ (ret _) => apply quiet_ret
    | |- quiet _ (throw _) => apply quiet_throw
    | |- quiet _ diverge => apply quiet_diverge
    | |- quiet _ Date_now => apply quiet_Date_now
    | |- quiet _ (attempt _ _) => apply quiet_attempt; reflexivity
    | |- quiet _ (emit _) => apply quiet_emit; reflexivity
    | |- quiet _ (sleep _) => apply quiet_sleep; reflexivity
    | |- quiet _ context_payload => apply quiet_payload; reflexivity
    | |- quiet _ (waitForVpnConnection _ _ _) =>
        apply quiet_waitForVpnConnection; [reflexivity | reflexivity | reflexivity | reflexivity]
    | |- quiet _ (if ?b then _ else _) => destruct b
    | |- quiet _ (match ?x with Some _ => _ | None => _ end) => destruct x
    | |- quiet _ (let x := _ in _) => cbv zeta
    end.

Ltac unfold_program :=
  unfold main, startVPN, commitRoutes, installTools, createConfigFiles,
    createSymlinkWithSudo, createFileWithSudo, fs_writeFile, fs_readFile,
    exec, exec_stdout, core_getInput, core_info, core_warning, core_setFailed,
    console_log.

Lemma quiet_symlink_startVPN fuel server :
  quiet isSymlink (startVPN fuel server).
Proof. unfold_program. quiet_tac. Qed.

(** ** createFileWithSudo: every step is fatal *)

Ltac counted_prog :=
  repeat lazymatch goal with
    | |- counted (waitForVpnConnection _ _ _) => apply counted_waitForVpnConnection
    | _ => progress counted_tac
    end.



Lemma run_eq fuel env w :
  run fuel env w
  = match main fuel env w with
    | (Throw e, w1, t1) => (Ok tt, advance env w1 0, t1 ++ [SetFailed e])
    | r => r
    end.
Proof.
  unfold run, try_catch. destruct (main fuel env w) as [[[a|e|] w1] t1]; reflexivity.
Qed.




(** ** The gateway pattern *)

Lemma startsWith_app s p b : startsWith s p = true -> startsWith (s ++ b) p = true.
Proof.
  revert s. induction p as [|c p IH]; intros s H; [reflexivity|].
  destruct s as [|d s]; [discriminate H|].
  cbn [app startsWith] in *. apply andb_true_iff in H. destruct H as [H1 H2].
  rewrite H1, (IH s H2). reflexivity.
Qed.

Lemma startsWith_length s p : startsWith s p = true -> List.length p <= List.length s.
Proof.
  revert s. induction p as [|c p IH]; intros s H; simpl; [lia|].
  destruct s as [|d s]; [discriminate H|].
  cbn [startsWith] in H. apply andb_true_iff in H. destruct H as [_ H].
  specialize (IH s H). simpl. lia.
Qed.

Lemma spanDigits_app s b : forall d c r,
  spanDigits s = (d, c :: r) -> spanDigits (s ++ b) = (d, c :: r ++ b).
Proof.
  induction s as [|x s IH]; intros d c r H; [discriminate H|].
  cbn [app spanDigits] in *. destruct (isDigit x).
  - destruct (spanDigits s) as [d' r'] eqn:E. injection H as <- ->.
    rewrite (IH d' c r eq_refl). reflexivity.
  - injection H as <- <- <-. reflexivity.
Qed.

Lemma spanDigits_app_head s b :
  fst (spanDigits s) <> [] -> fst (spanDigits (s ++ b)) <> [].
Proof.
  destruct s as [|x s]; [intros H; exfalso; apply H; reflexivity|].
  cbn [app spanDigits]. destruct (isDigit x).
  - intros _. destruct (spanDigits (s ++ b)). discriminate.
  - intros H. exfalso. apply H. reflexivity.
Qed.

Lemma digitsDot_app s b d r :
  digitsDot s = Some (d, r) -> digitsDot (s ++ b) = Some (d, r ++ b).
Proof.
  unfold digitsDot. intros H.
  destruct (spanDigits s) as [[|x d'] [|c r']] eqn:E; try discriminate H.
  rewrite (spanDigits_app s b E).
  destruct (N.eqb c dot); [|discriminate H].
  injection H as <- <-. reflexivity.
Qed.

Lemma dottedQuadHere_app s b g :
  dottedQuadHere s = Some g -> exists g', dottedQuadHere (s ++ b) = Some g'.
Proof.
  unfold dottedQuadHere. intros H.
  destruct (digitsDot s) as [[d1 r1]|] eqn:E1; [|discriminate H].
  destruct (digitsDot r1) as [[d2 r2]|] eqn:E2; [|discriminate H].
  destruct (digitsDot r2) as [[d3 r3]|] eqn:E3; [|discriminate H].
  rewrite (digitsDot_app s b E1), (digitsDot_app r1 b E2), (digitsDot_app r2 b E3).
  assert (Hne : fst (spanDigits r3) <> []).
  { destruct (fst (spanDigits r3)); [discriminate H | discriminate]. }
  apply (spanDigits_app_head r3 b) in Hne.
  destruct (fst (spanDigits (r3 ++ b))) as [|x d4]; [congruence|].
  eexists. reflexivity.
Qed.

Lemma viaHere_app s b g :
  viaHere s = Some g -> exists g', viaHere (s ++ b) = Some g'.
Proof.
  unfold viaHere. intros H.
  destruct (startsWith s (lit "via ")) eqn:E; [|discriminate H].
  rewrite (startsWith_app s _ b E).
  apply startsWith_length in E.
  rewrite skipn_app.
  replace (4 - List.length s) with 0 by (simpl in E; lia).
  cbn [skipn]. apply (dottedQuadHere_app _ b H).
Qed.

Lemma matchVia_eq s :
  matchVia s
  = match viaHere s with
    | Some g => Some g
    | None => match s with [] => None | _ :: s' => matchVia s' end
    end.
Proof. destruct s; reflexivity. Qed.

Lemma matchVia_app_r s b : forall g,
  matchVia s = Some g -> exists g', matchVia (s ++ b) = Some g'.
Proof.
  induction s as [|c s IH]; intros g H; rewrite matchVia_eq in H.
  - discriminate H.
  - rewrite (matchVia_eq ((c :: s) ++ b)).
    destruct (viaHere (c :: s)) as [g0|] eqn:E.
    + destruct (viaHere_app (c :: s) b E) as (g' & ->). eexists. reflexivity.
    + destruct (viaHere ((c :: s) ++ b)); [eexists; reflexivity|].
      exact (IH g H).
Qed.

Lemma matchVia_app_l a s : forall g,
  matchVia s = Some g -> exists g', matchVia (a ++ s) = Some g'.
Proof.
  induction a as [|c a IH]; intros g H; [exists g; exact H|].
  rewrite (matchVia_eq ((c :: a) ++ s)).
  destruct (viaHere ((c :: a) ++ s)); [eexists; reflexivity|].
  exact (IH g H).
Qed.

(** A chunk cannot match when the whole output does not. *)
Lemma matchVia_concat_none chunks :
  matchVia (List.concat chunks) = None ->
  forall c, In c chunks -> matchVia c = None.
Proof.
  induction chunks as [|x chunks IH]; intros Hnone c Hin; [destruct Hin|].
  cbn [List.concat] in Hnone. destruct Hin as [<- | Hin].
  - destruct (matchVia x) as [g|] eqn:E; [|reflexivity].
    destruct (matchVia_app_r x (List.concat chunks) E) as (g' & Hg').
    congruence.
  - apply IH; [|exact Hin].
    destruct (matchVia (List.concat chunks)) as [g|] eqn:E; [|reflexivity].
    destruct (matchVia_app_l x (List.concat chunks) E) as (g' & Hg').
    congruence.
Qed.

Lemma gatewayOf_none chunks :
  (forall c, In c chunks -> matchVia c = None) -> gatewayOf chunks = [].
Proof.
  unfold gatewayOf. generalize (@nil N) as acc.
  induction chunks as [|x chunks IH]; intros acc Hall; [reflexivity|].
  cbn [fold_left]. rewrite (Hall x (or_introl eq_refl)).
  apply IH. intros c Hin. apply Hall. right. exact Hin.
Qed.

(** ** commitRoutes *)

Lemma commitRoutes_eq server env w :
  commitRoutes server env w
  = let get := Exec (routeGet server) [] in
    let gateway := gatewayOf (stdout (env (idx w))) in
    let add := Exec (routeAdd server gateway) [] in
    let w1 := advance env w 0 in
    let w2 := advance env w1 0 in
    let w3 := advance env w2 0 in
    match failure (env (idx w)) with
    | Some e => (Throw e, w1, [get])
    | None =>
        if truthy gateway then
          match failure (env (S (idx w))) with
          | Some e => (Throw e, w2, [get; add])
          | None =>
              match failure (env (S (S (idx w)))) with
              | Some e => (Throw e, w3, [get; add; Exec routeReplace []])
              | None => (Ok tt, w3, [get; add; Exec routeReplace []])
              end
          end
        else (Throw (lit "Could not determine gateway to VPN server"), w1, [get])
    end.
Proof.
  unfold commitRoutes, exec_stdout, exec.
  rewrite bind_eq, attempt_eq.
  destruct (failure (env (idx w))); [reflexivity|].
  cbv beta iota zeta.
  destruct (truthy (gatewayOf (stdout (env (idx w))))); cbn [negb];
    [|reflexivity].
  rewrite bind_eq, attempt_eq, advance_idx.
  destruct (failure (env (S (idx w)))); [reflexivity|].
  rewrite attempt_eq, !advance_idx.
  destruct (failure (env (S (S (idx w))))); reflexivity.
Qed.

(** What precedes something is not the last event of the log. *)
Lemma precedes_not_last a b t : precedes a b t -> In a (removelast t).
Proof.
  intros (t1 & t2 & t3 & ->).
  rewrite removelast_app by discriminate.
  apply in_or_app. right.
  change (a :: t2 ++ b :: t3) with ([a] ++ (t2 ++ b :: t3)).
  rewrite removelast_app by (destruct t2; discriminate).
  left. reflexivity.
Qed.

(** C4: when the output of the gateway query holds no [via <address>]
    token, [commitRoutes] throws after that query alone: neither the
    addition of the host route nor the replacement of the default route is
    issued. *)
Theorem no_gateway_no_route_change server env w :
  matchVia (List.concat (stdout (env (idx w)))) = None ->
  exists e,
    commitRoutes server env w
    = (Throw e, advance env w 0, [Exec (routeGet server) []])
    /\ existsb isRouteMutation (traceOf (commitRoutes server env w)) = false
    /\ (failure (env (idx w)) = None ->
        e = lit "Could not determine gateway to VPN server").
Proof.
  intros Hnone.
  assert (Hg : gatewayOf (stdout (env (idx w))) = []).
  { apply gatewayOf_none. apply matchVia_concat_none. exact Hnone. }
  rewrite commitRoutes_eq. cbv zeta. rewrite Hg. cbn [truthy].
  destruct (failure (env (idx w))) as [e|].
  - exists e. repeat split. intros H. discriminate H.
  - eexists. repeat split.
Qed.

Lemma no_gateway_no_route_change_witness :
  exists e,
    commitRoutes (lit "203.0.113.5") envNoGateway world0
    = (Throw e, advance envNoGateway world0 0,
       [Exec (routeGet (lit "203.0.113.5")) []])
    /\ existsb isRouteMutation
         (traceOf (commitRoutes (lit "203.0.113.5") envNoGateway world0)) = false
    /\ (failure (envNoGateway (idx world0)) = None ->
        e = lit "Could not determine gateway to VPN server").
Proof.
  apply (@no_gateway_no_route_change (lit "203.0.113.5") envNoGateway world0).
  reflexivity.
Defined.

(** ** One tick of the polling loop *)

Lemma pollOnce_eq env w :
  try_catch pollOnce (fun _ => ret false) env w
  = (Ok (readyAt env (idx w)), tickWorld env w, tickTrace env w).
Proof.
  unfold pollOnce, exec_stdout, try_catch, readyAt, tickWorld, tickTrace.
  rewrite bind_eq, attempt_eq.
  destruct (failure (env (idx w))); [reflexivity|].
  cbv beta iota zeta.
  rewrite bind_eq, attempt_eq, advance_idx.
  destruct (failure (env (S (idx w)))); reflexivity.
Qed.

Lemma pollLoop_step fuel start timeout interval env w :
  pollLoop (S fuel) start timeout interval env w
  = if (clock w - start <? timeout)%Z then
      if readyAt env (idx w)
      then (Ok (Some true), tickWorld env w, tickTrace env w)
      else after (tickTrace env w ++ [Sleep interval])
                 (pollLoop fuel start timeout interval env
                    (advance env (tickWorld env w) (timerDelay interval)))
    else (Ok None, w, []).
Proof.
  cbn [pollLoop]. rewrite bind_eq. cbn [Date_now]. cbv beta iota.
  destruct (clock w - start <? timeout)%Z; [|reflexivity].
  cbn [app]. rewrite bind_eq, pollOnce_eq.
  destruct (readyAt env (idx w)).
  - cbv beta iota. unfold ret. rewrite app_nil_r. reflexivity.
  - cbv beta iota. rewrite bind_eq, sleep_eq. unfold after.
    destruct (pollLoop fuel start timeout interval env
                (advance env (tickWorld env w) (timerDelay interval)))
      as [[o w'] t].
    rewrite <- app_assoc. reflexivity.
Qed.

Lemma tickWorld_idx env w :
  idx (tickWorld env w) = idx w + List.length (tickTrace env w).
Proof.
  unfold tickWorld, tickTrace.
  destruct (failure (env (idx w))); simpl; lia.
Qed.

Lemma readyAt_tickTrace env w :
  readyAt env (idx w) = true -> tickTrace env w = [statusQuery; ifaceQuery].
Proof.
  unfold readyAt, tickTrace.
  destruct (failure (env (idx w))); [discriminate | reflexivity].
Qed.

Lemma pollLoop_never_throws fuel start timeout interval env : forall w e,
  outcomeOf (pollLoop fuel start timeout interval env w) <> Throw e.
Proof.
  induction fuel as [|fuel IH]; intros w e; [discriminate|].
  rewrite pollLoop_step.
  destruct (clock w - start <? timeout)%Z; [|discriminate].
  destruct (readyAt env (idx w)); [discriminate|].
  specialize (IH (advance env (tickWorld env w) (timerDelay interval)) e).
  destruct (pollLoop fuel start timeout interval env
              (advance env (tickWorld env w) (timerDelay interval)))
    as [[o w'] t].
  exact IH.
Qed.

Lemma waitForVpnConnection_eq fuel timeout interval env w :
  waitForVpnConnection fuel timeout interval env w
  = match pollLoop fuel (clock w) timeout interval env w with
    | (Ok (Some v), w1, t1) => (Ok v, w1, t1)
    | (Ok None, w1, t1) =>
        match failure (env (idx w1)) with
        | Some e => (Throw e, advance env w1 0, t1 ++ [logRead])
        | None => (Throw (timeoutMessage ++ text (env (idx w1))),
                   advance env w1 0, t1 ++ [logRead])
        end
    | (Throw e, w1, t1) => (Throw e, w1, t1)
    | (Diverge, w1, t1) => (Diverge, w1, t1)
    end.
Proof.
  unfold waitForVpnConnection, fs_readFile.
  rewrite bind_eq. cbn [Date_now]. cbv beta iota. cbn [app].
  rewrite bind_eq.
  destruct (pollLoop fuel (clock w) timeout interval env w)
    as [[[[v|]|e|] w1] t1]; try reflexivity.
  - unfold ret. rewrite app_nil_r. reflexivity.
  - rewrite bind_eq, attempt_eq.
    destruct (failure (env (idx w1))); reflexivity.
Qed.

(** C5: a tick in which a status query fails neither throws nor returns:
    the failure is dropped, the loop sleeps for the interval and goes on
    with the same start time, timeout and interval (the interface query is
    skipped when it is the IPsec query that failed).  The loop itself never
    throws: [waitForVpnConnection] throws only after the loop has ended on
    its timeout and the daemon log has been read. *)
Theorem query_failure_is_swallowed :
  (forall fuel start timeout interval env w e,
     (clock w - start < timeout)%Z ->
     failure (env (idx w)) = Some e
     \/ (failure (env (idx w)) = None /\ failure (env (S (idx w))) = Some e) ->
     pollLoop (S fuel) start timeout interval env w
     = after (tickTrace env w ++ [Sleep interval])
             (pollLoop fuel start timeout interval env
                (advance env (tickWorld env w) (timerDelay interval)))
     /\ tickTrace env w
        = match failure (env (idx w)) with
          | Some _ => [statusQuery]
          | None => [statusQuery; ifaceQuery]
          end)
  /\ (forall fuel timeout interval env w e,
        outcomeOf (waitForVpnConnection fuel timeout interval env w) = Throw e ->
        exists t, traceOf (waitForVpnConnection fuel timeout interval env w)
                  = t ++ [logRead]).
Proof.
  split.
  - intros fuel start timeout interval env w e Hclock Hfail.
    split; [|reflexivity].
    rewrite pollLoop_step.
    apply Z.ltb_lt in Hclock. rewrite Hclock.
    assert (Hne : readyAt env (idx w) = false).
    { unfold readyAt. destruct Hfail as [-> | [-> ->]]; reflexivity. }
    rewrite Hne. reflexivity.
  - intros fuel timeout interval env w e.
    rewrite waitForVpnConnection_eq.
    pose proof (@pollLoop_never_throws fuel (clock w) timeout interval env w) as Hloop.
    destruct (pollLoop fuel (clock w) timeout interval env w)
      as [[[[v|]|e1|] w1] t1]; observe.
    + discriminate.
    + intros _. exists t1.
      destruct (failure (env (idx w1))); reflexivity.
    + exfalso. exact (Hloop e1 eq_refl).
    + discriminate.
Qed.

Lemma query_failure_is_swallowed_witness :
  pollLoop 2 0 30000 1000 envDown world0
  = after (tickTrace envDown world0 ++ [Sleep 1000])
          (pollLoop 1 0 30000 1000 envDown
             (advance envDown (tickWorld envDown world0) (timerDelay 1000)))
  /\ tickTrace envDown world0 = [statusQuery].
Proof.
  apply (proj1 query_failure_is_swallowed 1 0%Z 30000%Z 1000%Z envDown world0
           (lit "The process '/usr/bin/sudo' failed with exit code 3")).
  - reflexivity.
  - left. reflexivity.
Defined.

(** ** A tick in which both tests pass *)

Lemma pollLoop_ready_tick timeout interval env fuel : forall start w pre post,
  traceOf (pollLoop fuel start timeout interval env w) = pre ++ statusQuery :: post ->
  readyAt env (idx w + List.length pre) = true ->
  post = [ifaceQuery]
  /\ outcomeOf (pollLoop fuel start timeout interval env w) = Ok (Some true).
Proof.
  induction fuel as [|fuel IH]; intros start w pre post Ht Hready.
  - destruct pre; discriminate Ht.
  - rewrite pollLoop_step in *.
    destruct (clock w - start <? timeout)%Z;
      [|destruct pre; discriminate Ht].
    destruct (readyAt env (idx w)) eqn:Hnow.
    + observe. rewrite (readyAt_tickTrace env w Hnow) in Ht.
      destruct pre as [|x [|y [|z pre]]]; try discriminate Ht.
      injection Ht as <-. split; reflexivity.
    + pose proof (tickWorld_idx env w) as Hidx.
      specialize (IH start (advance env (tickWorld env w) (timerDelay interval))).
      destruct (pollLoop fuel start timeout interval env
                  (advance env (tickWorld env w) (timerDelay interval)))
        as [[o w'] t] eqn:Eloop.
      unfold after in *. observe. rewrite <- app_assoc in Ht.
      rewrite advance_idx, Hidx in IH.
      unfold tickTrace in *.
      destruct (failure (env (idx w))) eqn:Ef; cbn [List.length app] in *.
      * destruct pre as [|x [|y pre]]; try discriminate Ht.
        -- rewrite Nat.add_0_r, Hnow in Hready. discriminate Hready.
        -- injection Ht as _ _ Ht. apply (IH pre post Ht).
           replace (S (idx w + 1) + List.length pre)
             with (idx w + S (S (List.length pre))) by lia.
           exact Hready.
      * destruct pre as [|x [|y [|z pre]]]; try discriminate Ht.
        -- rewrite Nat.add_0_r, Hnow in Hready. discriminate Hready.
        -- injection Ht as _ _ _ Ht. apply (IH pre post Ht).
           replace (S (idx w + 2) + List.length pre)
             with (idx w + S (S (S (List.length pre)))) by lia.
           exact Hready.
Qed.

(** What the two tests accept. *)
Lemma startsWith_spec s p : startsWith s p = true <-> exists r, s = p ++ r.
Proof.
  revert s. induction p as [|c p IH]; intros s; cbn [startsWith].
  - split; [intros _; exists s; reflexivity | reflexivity].
  - destruct s as [|d s].
    + split; [discriminate | intros (r & H); discriminate H].
    + rewrite andb_true_iff, N.eqb_eq, IH. split.
      * intros (-> & r & ->). exists r. reflexivity.
      * intros (r & H). injection H as -> ->. split; [reflexivity | exists r; reflexivity].
Qed.

Lemma dotStarThen_spec p s :
  dotStarThen p s = true
  <-> exists m r, s = m ++ p ++ r
                  /\ forallb (fun c => negb (isLineTerminator c)) m = true.
Proof.
  induction s as [|c s IH]; cbn [dotStarThen].
  - rewrite orb_false_r, startsWith_spec. split.
    + intros (r & H). exists [], r. split; [exact H | reflexivity].
    + intros (m & r & H & _). destruct m; [exists r; exact H | discriminate H].
  - rewrite orb_true_iff, andb_true_iff, startsWith_spec, IH. split.
    + intros [(r & H) | (Hc & m & r & -> & Hm)].
      * exists [], r. split; [exact H | reflexivity].
      * exists (c :: m), r. split; [reflexivity|].
        cbn [forallb]. rewrite Hc, Hm. reflexivity.
    + intros (m & r & H & Hm). destruct m as [|d m].
      * left. exists r. exact H.
      * right. injection H as <- ->. cbn [forallb] in Hm.
        apply andb_true_iff in Hm. destruct Hm as [Hd Hm].
        split; [exact Hd|]. exists m, r. split; [reflexivity | exact Hm].
Qed.

(** [/L2TP-PSK.*ESTABLISHED/] accepts the texts in which [L2TP-PSK] is
    followed by [ESTABLISHED] with no line terminator in between. *)
Lemma testEstablished_spec s :
  testEstablished s = true
  <-> exists a m b,
        s = a ++ lit "L2TP-PSK" ++ m ++ lit "ESTABLISHED" ++ b
        /\ forallb (fun c => negb (isLineTerminator c)) m = true.
Proof.
  assert (Hhere : forall s,
            establishedHere s = true
            <-> exists m b, s = lit "L2TP-PSK" ++ m ++ lit "ESTABLISHED" ++ b
                            /\ forallb (fun c => negb (isLineTerminator c)) m = true).
  { intros s0. unfold establishedHere.
    rewrite andb_true_iff, startsWith_spec, dotStarThen_spec. split.
    - intros ((r & ->) & m & b & H & Hm). exists m, b.
      change (skipn 8 (lit "L2TP-PSK" ++ r)) with r in H. rewrite H.
      split; [reflexivity | exact Hm].
    - intros (m & b & -> & Hm). split.
      + eexists. reflexivity.
      + exists m, b. split; [reflexivity | exact Hm]. }
  induction s as [|c s IH]; cbn [testEstablished].
  - rewrite orb_false_r, Hhere. split.
    + intros (m & b & H & Hm). exists [], m, b. split; assumption.
    + intros (a & m & b & H & _). destruct a; discriminate H.
  - rewrite orb_true_iff, Hhere, IH. split.
    + intros [(m & b & H & Hm) | (a & m & b & -> & Hm)].
      * exists [], m, b. split; assumption.
      * exists (c :: a), m, b. split; [reflexivity | exact Hm].
    + intros (a & m & b & H & Hm). destruct a as [|d a].
      * left. exists m, b. split; assumption.
      * right. injection H as _ ->. exists a, m, b. split; [reflexivity | exact Hm].
Qed.

Lemma pppInterfaceUp_spec text :
  pppInterfaceUp text = true
  <-> exists line, In line (split LF text)
                   /\ startsWith (trim line) (lit "inet ") = true.
Proof. unfold pppInterfaceUp. apply existsb_exists. Qed.

(** C1: the defaults are 30 seconds and 1 second.  A tick that starts
    before the timeout, whose two queries succeed, whose status text
    matches [L2TP-PSK.*ESTABLISHED] and whose interface text has a line
    that starts with [inet ] once trimmed, makes the loop return at once.
    In a run of [waitForVpnConnection] such a tick is the last thing that
    happens: its interface query ends the log and the function returns
    [true], whatever the earlier ticks saw. *)
Theorem ready_tick_returns_immediately :
  (default_timeout, default_interval) = (30000, 1000)%Z
  /\ (forall fuel start timeout interval env w,
        (clock w - start < timeout)%Z ->
        failure (env (idx w)) = None ->
        failure (env (S (idx w))) = None ->
        ipsecEstablished (List.concat (stdout (env (idx w)))) = true ->
        pppInterfaceUp (List.concat (stdout (env (S (idx w))))) = true ->
        pollLoop (S fuel) start timeout interval env w
        = (Ok (Some true), advance env (advance env w 0) 0,
           [statusQuery; ifaceQuery]))
  /\ (forall fuel timeout interval env w pre post,
        traceOf (waitForVpnConnection fuel timeout interval env w)
        = pre ++ statusQuery :: post ->
        readyAt env (idx w + List.length pre) = true ->
        post = [ifaceQuery]
        /\ outcomeOf (waitForVpnConnection fuel timeout interval env w) = Ok true).
Proof.
  split; [reflexivity|]. split.
  - intros fuel start timeout interval env w Hclock H1 H2 Hipsec Hppp.
    rewrite pollLoop_step. apply Z.ltb_lt in Hclock. rewrite Hclock.
    unfold readyAt, tickWorld, tickTrace. rewrite H1, H2, Hipsec, Hppp.
    reflexivity.
  - intros fuel timeout interval env w pre post Ht Hready.
    rewrite waitForVpnConnection_eq in *.
    pose proof (@pollLoop_ready_tick timeout interval env fuel (clock w) w) as Hloop.
    pose proof (@pollLoop_never_throws fuel (clock w) timeout interval env w) as Hno.
    destruct (pollLoop fuel (clock w) timeout interval env w)
      as [[[[v|]|e1|] w1] t1]; observe.
    + destruct (Hloop pre post Ht Hready) as [Hpost Ho].
      injection Ho as ->. split; [exact Hpost | reflexivity].
    + assert (Ht' : t1 ++ [logRead] = pre ++ statusQuery :: post).
      { destruct (failure (env (idx w1))); exact Ht. }
      apply app_eq_app in Ht'. destruct Ht' as (l & [[Ha Hb] | [Ha Hb]]).
      * destruct l as [|x l]; simpl in Hb; [discriminate Hb|].
        injection Hb as Hx Hpost. subst x.
        destruct (Hloop pre l Ha Hready) as [_ Ho]. discriminate Ho.
      * destruct l as [|x [|y l]]; simpl in Hb; discriminate Hb.
    + exfalso. exact (Hno e1 eq_refl).
    + destruct (Hloop pre post Ht Hready) as [_ Ho]. discriminate Ho.
Qed.

Lemma ready_tick_returns_immediately_witness :
  traceOf (waitForVpnConnection 5 default_timeout default_interval
             envUpAtSecondTick world0)
  = [statusQuery; ifaceQuery; Sleep 1000] ++ statusQuery :: [ifaceQuery]
  /\ readyAt envUpAtSecondTick 3 = true
  /\ [ifaceQuery] = [ifaceQuery]
  /\ outcomeOf (waitForVpnConnection 5 default_timeout default_interval
                  envUpAtSecondTick world0) = Ok true.
Proof.
  assert (Ht : traceOf (waitForVpnConnection 5 default_timeout default_interval
                          envUpAtSecondTick world0)
               = [statusQuery; ifaceQuery; Sleep 1000] ++ statusQuery :: [ifaceQuery])
    by reflexivity.
  split; [exact Ht|]. split; [reflexivity|].
  exact (proj2 (proj2 ready_tick_returns_immediately)
           5 default_timeout default_interval envUpAtSecondTick world0
           [statusQuery; ifaceQuery; Sleep 1000] [ifaceQuery] Ht eq_refl).
Defined.

(** ** The timeout *)

Lemma timerDelay_pos ms : (1 <= timerDelay ms)%Z.
Proof.
  unfold timerDelay.
  destruct (1 <=? ms)%Z eqn:E; cbn [andb]; [|lia].
  destruct (ms <=? 2147483647)%Z; [|lia].
  apply Z.leb_le. exact E.
Qed.






(** ** The log of createConfigFiles *)

Lemma bind_cong_l {A B} (m m' : M A) (k : A -> M B) env w :
  m env w = m' env w -> bind m k env w = bind m' k env w.
Proof. intros H. unfold bind. rewrite H. reflexivity. Qed.

Lemma bind_cong_r {A B} (m : M A) (k k' : A -> M B) env w :
  (forall a w1, k a env w1 = k' a env w1) -> bind m k env w = bind m k' env w.
Proof.
  intros H. unfold bind. destruct (m env w) as [[[a|e|] w1] t1]; try reflexivity.
  rewrite H. reflexivity.
Qed.

Lemma bind_assoc {A B C} (m : M A) (k : A -> M B) (h : B -> M C) env w :
  bind (bind m k) h env w = bind m (fun a => bind (k a) h) env w.
Proof.
  unfold bind. destruct (m env w) as [[[a|e|] w1] t1]; try reflexivity.
  destruct (k a env w1) as [[[b|e|] w2] t2]; try reflexivity.
  destruct (h b env w2) as [[o w3] t3]. rewrite app_assoc. reflexivity.
Qed.

Lemma attemptAll_app a b env : forall w,
  attemptAll (a ++ b) env w = (attemptAll a ;; attemptAll b) env w.
Proof.
  induction a as [|ev a IH]; intros w; cbn [app attemptAll].
  - unfold bind, ret. destruct (attemptAll b env w) as [[o w'] t]. reflexivity.
  - rewrite bind_assoc. apply bind_cong_r. intros _ w1. apply IH.
Qed.

Lemma createConfigFiles_steps server username password psk env w :
  createConfigFiles server username password psk env w
  = (attemptAll (configSteps server username password psk) ;;
     createSymlinkWithSudo (lit "/etc/resolv.conf") (lit "/etc/resolv-vpn.conf") ;;
     core_info (lit "All configuration files created successfully.")) env w.
Proof.
  unfold createConfigFiles, configSteps.
  repeat (rewrite (bind_cong_l _ _ _ _ _ (attemptAll_app _ _ env w));
          rewrite bind_assoc;
          rewrite (bind_cong_l _ _ _ _ _ (createFileWithSudo_steps _ _ env w));
          apply bind_cong_r; clear w; intros _ w).
  apply bind_cong_l. apply createFileWithSudo_steps.
Qed.

Lemma symlink_then_info env w :
  (createSymlinkWithSudo (lit "/etc/resolv.conf") (lit "/etc/resolv-vpn.conf") ;;
   core_info (lit "All configuration files created successfully.")) env w
  = (Ok tt,
     worldOf ((createSymlinkWithSudo (lit "/etc/resolv.conf") (lit "/etc/resolv-vpn.conf") ;;
               core_info (lit "All configuration files created successfully.")) env w),
     symlinkStep :: symlinkTail env (idx w)).
Proof.
  unfold createSymlinkWithSudo, exec, core_warning, core_info, symlinkTail,
    symlinkStep, worldOf.
  rewrite bind_eq. unfold try_catch. rewrite attempt_eq.
  destruct (failure (env (idx w))); reflexivity.
Qed.

(** Either a step of an artifact rejects and the log stops there, or all
    twenty succeed and the log goes on with the link and the closing
    message. *)
Lemma createConfigFiles_cases server username password psk env w :
  let steps := configSteps server username password psk in
  (exists n e w',
      n < List.length steps
      /\ failure (env (idx w + n)) = Some e
      /\ createConfigFiles server username password psk env w
         = (Throw e, w', firstn (S n) steps))
  \/ (exists w',
         (forall n, n < List.length steps -> failure (env (idx w + n)) = None)
         /\ createConfigFiles server username password psk env w
            = (Ok tt, w',
               steps ++ symlinkStep :: symlinkTail env (idx w + List.length steps))).
Proof.
  intros steps. rewrite createConfigFiles_steps. fold steps. rewrite bind_eq.
  destruct (attemptAll_cases steps env w)
    as [(w1 & Heq & Hidx & Hall) | (n & e & w1 & Hn & _ & Hfail & Heq & _)];
    rewrite Heq.
  - right. rewrite symlink_then_info, Hidx.
    eexists. split; [exact Hall | reflexivity].
  - left. exists n, e, w1. repeat split; assumption.
Qed.

Lemma configSteps_eq server username password psk :
  configSteps server username password psk
  = [ WriteFile (lit "/tmp/ipsec.conf") (ipsec_conf server) None;
      Exec (lit "sudo") [lit "mkdir"; lit "-p"; lit "/etc"];
      Exec (lit "sudo") [lit "mv"; lit "/tmp/ipsec.conf"; lit "/etc/ipsec.conf"];
      Exec (lit "sudo") [lit "chmod"; lit "600"; lit "/etc/ipsec.conf"];
      WriteFile (lit "/tmp/ipsec.secrets") (ipsec_secrets server psk) None;
      Exec (lit "sudo") [lit "mkdir"; lit "-p"; lit "/etc"];
      Exec (lit "sudo") [lit "mv"; lit "/tmp/ipsec.secrets"; lit "/etc/ipsec.secrets"];
      Exec (lit "sudo") [lit "chmod"; lit "600"; lit "/etc/ipsec.secrets"];
      WriteFile (lit "/tmp/options.l2tpd.client")
        (options_l2tpd_client username password) None;
      Exec (lit "sudo") [lit "mkdir"; lit "-p"; lit "/etc/ppp"];
      Exec (lit "sudo") [lit "mv"; lit "/tmp/options.l2tpd.client";
                         lit "/etc/ppp/options.l2tpd.client"];
      Exec (lit "sudo") [lit "chmod"; lit "600"; lit "/etc/ppp/options.l2tpd.client"];
      WriteFile (lit "/tmp/xl2tpd.conf") (xl2tpd_conf server) None;
      Exec (lit "sudo") [lit "mkdir"; lit "-p"; lit "/etc/xl2tpd"];
      Exec (lit "sudo") [lit "mv"; lit "/tmp/xl2tpd.conf"; lit "/etc/xl2tpd/xl2tpd.conf"];
      Exec (lit "sudo") [lit "chmod"; lit "600"; lit "/etc/xl2tpd/xl2tpd.conf"];
      WriteFile (lit "/tmp/resolv-vpn.conf") resolv_vpn_conf None;
      Exec (lit "sudo") [lit "mkdir"; lit "-p"; lit "/etc"];
      Exec (lit "sudo") [lit "mv"; lit "/tmp/resolv-vpn.conf"; lit "/etc/resolv-vpn.conf"];
      Exec (lit "sudo") [lit "chmod"; lit "600"; lit "/etc/resolv-vpn.conf"] ].
Proof. reflexivity. Qed.

(** ** The generated contents *)

Lemma writtenTo_app path t1 t2 :
  writtenTo path (t1 ++ t2) = writtenTo path t1 ++ writtenTo path t2.
Proof. apply flat_map_app. Qed.

Lemma writtenTo_firstn path n t c :
  In c (writtenTo path (firstn n t)) -> In c (writtenTo path t).
Proof.
  intros H. rewrite <- (firstn_skipn n t), writtenTo_app.
  apply in_or_app. left. exact H.
Qed.

Lemma writtenTo_symlink path env n :
  writtenTo path (symlinkStep :: symlinkTail env n) = [].
Proof. unfold symlinkTail. destruct (failure (env n)); reflexivity. Qed.

(** What [createConfigFiles] writes to a temporary file is what the steps
    of the five artifacts write to it. *)
Lemma createConfigFiles_written path server username password psk env w :
  (forall c,
     In c (writtenTo path (traceOf (createConfigFiles server username password psk env w))) ->
     In c (writtenTo path (configSteps server username password psk)))
  /\ (outcomeOf (createConfigFiles server username password psk env w) = Ok tt ->
      traceOf (createConfigFiles server username password psk env w)
      = configSteps server username password psk
        ++ symlinkStep
        :: symlinkTail env
             (idx w + List.length (configSteps server username password psk))).
Proof.
  destruct (createConfigFiles_cases server username password psk env w)
    as [(n & e & w' & _ & _ & Heq) | (w' & _ & Heq)]; rewrite Heq; observe.
  - split; [|discriminate]. intros c. apply writtenTo_firstn.
  - split; [|reflexivity]. intros c.
    rewrite writtenTo_app, writtenTo_symlink, app_nil_r. exact (fun H => H).
Qed.

(** C7: the content written for [/etc/ipsec.secrets] is the server, then
    space, colon, space, PSK, space and an opening double quote, then the
    key and a closing double quote, and nothing else: no white space or
    line break is added before, after or in between.  A successful
    [createConfigFiles] writes it once and moves it to
    [/etc/ipsec.secrets]. *)
Theorem ipsec_secrets_is_one_exact_line server username password psk env w :
  let r := createConfigFiles server username password psk env w in
  let expected := server ++ [32; 58; 32; 80; 83; 75; 32; 34]%N ++ psk ++ [34%N] in
  (forall c, In c (writtenTo (lit "/tmp/ipsec.secrets") (traceOf r)) -> c = expected)
  /\ (outcomeOf r = Ok tt ->
      writtenTo (lit "/tmp/ipsec.secrets") (traceOf r) = [expected]
      /\ In (Exec (lit "sudo")
               [lit "mv"; lit "/tmp/ipsec.secrets"; lit "/etc/ipsec.secrets"])
            (traceOf r)).
Proof.
  intros r expected.
  destruct (createConfigFiles_written (lit "/tmp/ipsec.secrets")
              server username password psk env w) as [Hin Hok].
  assert (Hsteps : writtenTo (lit "/tmp/ipsec.secrets")
                     (configSteps server username password psk) = [expected])
    by reflexivity.
  split.
  - intros c Hc. apply Hin in Hc. rewrite Hsteps in Hc.
    destruct Hc as [<- | []]. reflexivity.
  - intros Ho. unfold r. rewrite (Hok Ho). split.
    + rewrite writtenTo_app, writtenTo_symlink, app_nil_r. exact Hsteps.
    + apply in_or_app. left. rewrite configSteps_eq.
      do 6 right. left. reflexivity.
Qed.

Lemma ipsec_secrets_is_one_exact_line_witness :
  In (lit "vpn.example.org : PSK " ++ dquote :: lit "s3cret" ++ [dquote])
     (writtenTo (lit "/tmp/ipsec.secrets")
        (traceOf (createConfigFiles (lit "vpn.example.org") (lit "alice")
                    (lit "pa55") (lit "s3cret") envQuiet world0)))
  /\ lit "vpn.example.org : PSK " ++ dquote :: lit "s3cret" ++ [dquote]
     = lit "vpn.example.org" ++ [32; 58; 32; 80; 83; 75; 32; 34]%N
       ++ lit "s3cret" ++ [34%N].
Proof.
  assert (Hin : In (lit "vpn.example.org : PSK " ++ dquote :: lit "s3cret" ++ [dquote])
                   (writtenTo (lit "/tmp/ipsec.secrets")
                      (traceOf (createConfigFiles (lit "vpn.example.org") (lit "alice")
                                  (lit "pa55") (lit "s3cret") envQuiet world0))))
    by (left; reflexivity).
  split; [exact Hin|].
  exact (proj1 (ipsec_secrets_is_one_exact_line (lit "vpn.example.org") (lit "alice")
                  (lit "pa55") (lit "s3cret") envQuiet world0) _ Hin).
Defined.

(** ** The IPsec policy *)

Lemma split_nonempty sep s : split sep s <> [].
Proof.
  destruct s as [|c s]; cbn [split]; [discriminate|].
  destruct (N.eqb c sep); [discriminate|].
  destruct (split sep s); discriminate.
Qed.

Lemma split_app_sep sep a b :
  split sep (a ++ sep :: b) = split sep a ++ split sep b.
Proof.
  induction a as [|c a IH]; cbn [app split].
  - rewrite N.eqb_refl. reflexivity.
  - rewrite IH. destruct (N.eqb c sep); [reflexivity|].
    pose proof (split_nonempty sep a) as Hne.
    destruct (split sep a) as [|piece rest]; [congruence | reflexivity].
Qed.

Lemma split_no_sep sep s : existsb (N.eqb sep) s = false -> split sep s = [s].
Proof.
  induction s as [|c s IH]; cbn [existsb split]; [reflexivity|].
  intros H. apply orb_false_iff in H. destruct H as [Hc Hs].
  rewrite N.eqb_sym, Hc, (IH Hs). reflexivity.
Qed.

(** The policy is its fixed text followed by one last line, [right=] and
    the server. *)
Lemma ipsec_conf_split server :
  ipsec_conf server = ipsecConfFixed ++ LF :: lit "    right=" ++ server ++ [LF].
Proof. vm_compute. reflexivity. Qed.

Lemma confAssignments_fixed :
  confAssignments ipsecConfFixed
  = [ (lit "keyexchange", lit "ikev1");
      (lit "ike", lit "aes128-sha256-modp2048,aes256-sha256-modp2048,aes256-sha512-modp4096");
      (lit "auto", lit "start");
      (lit "authby", lit "psk");
      (lit "type", lit "transport") ].
Proof. vm_compute. reflexivity. Qed.

Lemma confAssignments_ipsec_conf server :
  hasLineFeed server = false ->
  confAssignments (ipsec_conf server)
  = confAssignments ipsecConfFixed ++ [(lit "right", server)].
Proof.
  intros Hlf. rewrite ipsec_conf_split. unfold confAssignments.
  rewrite split_app_sep, flat_map_app. f_equal.
  change (lit "    right=" ++ server ++ [LF])
    with ((lit "    right=" ++ server) ++ LF :: []).
  rewrite split_app_sep, flat_map_app.
  rewrite split_no_sep.
  - reflexivity.
  - rewrite existsb_app. unfold hasLineFeed in Hlf. rewrite Hlf. reflexivity.
Qed.

Lemma occurrences_app_miss p a b :
  missAll p a b = true -> occurrences p (a ++ b) = occurrences p b.
Proof.
  induction a as [|c a IH]; intros H; [reflexivity|].
  cbn [missAll] in H. apply andb_true_iff in H. destruct H as [Hc Ha].
  apply negb_true_iff in Hc.
  cbn [app occurrences]. rewrite Hc. exact (IH Ha).
Qed.

Lemma occurrences_short p s :
  List.length s < List.length p -> occurrences p s = 0.
Proof.
  induction s as [|c s IH]; intros Hlen.
  - destruct p; [simpl in Hlen; lia | reflexivity].
  - cbn [occurrences].
    destruct (startsWith (c :: s) p) eqn:E.
    + apply startsWith_length in E. lia.
    + apply IH. simpl in Hlen. lia.
Qed.

(** The text [right=<server>] occurs once in the policy, whatever the
    server is. *)
Lemma occurrences_right server :
  occurrences (lit "right=" ++ server) (ipsec_conf server) = 1.
Proof.
  assert (Hsplit : ipsec_conf server
                   = (ipsecConfFixed ++ LF :: lit "    ")
                     ++ (lit "right=" ++ server) ++ [LF])
    by (vm_compute; reflexivity).
  rewrite Hsplit. rewrite occurrences_app_miss by (vm_compute; reflexivity).
  change (lit "right=" ++ server)
    with (114 :: 105 :: 103 :: 104 :: 116 :: 61 :: server)%N.
  set (p := (114 :: 105 :: 103 :: 104 :: 116 :: 61 :: server)%N).
  assert (Hhere : startsWith (p ++ [LF]) p = true).
  { apply startsWith_spec. exists [LF]. reflexivity. }
  assert (Hnext : startsWith ((105 :: 103 :: 104 :: 116 :: 61 :: server)%N ++ [LF]) p
                  = false) by reflexivity.
  change (occurrences p (p ++ [LF]))
    with ((if startsWith (p ++ [LF]) p then 1 else 0)
          + ((if startsWith ((105 :: 103 :: 104 :: 116 :: 61 :: server)%N ++ [LF]) p
              then 1 else 0)
             + occurrences p ((103 :: 104 :: 116 :: 61 :: server)%N ++ [LF]))).
  rewrite Hhere, Hnext.
  rewrite occurrences_short; [reflexivity|].
  unfold p. cbn [app List.length]. rewrite length_app. simpl. lia.
Qed.

(** C8: the policy written for [/etc/ipsec.conf] is a fixed text followed
    by the single line [right=<server>].  The text [right=<server>] occurs
    in it exactly once, whatever the server is.  The fixed text makes one
    [ike] assignment, to aes128-sha256-modp2048, aes256-sha256-modp2048 and
    aes256-sha512-modp4096 in this order, and no [right] assignment; so for
    a server that is one line, the policy makes exactly one [right]
    assignment, to the server, and exactly this [ike] assignment. *)
Theorem ipsec_policy_right_and_ciphers server username password psk env w :
  let r := createConfigFiles server username password psk env w in
  let suites :=
    lit "aes128-sha256-modp2048,aes256-sha256-modp2048,aes256-sha512-modp4096" in
  let fixed :=
    [ (lit "keyexchange", lit "ikev1"); (lit "ike", suites);
      (lit "auto", lit "start"); (lit "authby", lit "psk");
      (lit "type", lit "transport") ] in
  (forall c,
     In c (writtenTo (lit "/tmp/ipsec.conf") (traceOf r)) ->
     c = ipsecConfFixed ++ LF :: lit "    right=" ++ server ++ [LF]
     /\ occurrences (lit "right=" ++ server) c = 1
     /\ (hasLineFeed server = false ->
         confAssignments c = fixed ++ [(lit "right", server)]
         /\ filter (fun kv => eqb (fst kv) (lit "right")) (confAssignments c)
            = [(lit "right", server)]
         /\ map snd (filter (fun kv => eqb (fst kv) (lit "ike")) (confAssignments c))
            = [suites]))
  /\ confAssignments ipsecConfFixed = fixed
  /\ split comma suites
     = [lit "aes128-sha256-modp2048"; lit "aes256-sha256-modp2048";
        lit "aes256-sha512-modp4096"]
  /\ (outcomeOf r = Ok tt ->
      writtenTo (lit "/tmp/ipsec.conf") (traceOf r) = [ipsec_conf server]).
Proof.
  intros r suites fixed.
  destruct (createConfigFiles_written (lit "/tmp/ipsec.conf")
              server username password psk env w) as [Hin Hok].
  assert (Hsteps : writtenTo (lit "/tmp/ipsec.conf")
                     (configSteps server username password psk)
                   = [ipsec_conf server]) by reflexivity.
  split; [|split; [exact confAssignments_fixed | split; [reflexivity|]]].
  - intros c Hc. apply Hin in Hc. rewrite Hsteps in Hc.
    destruct Hc as [<- | []]. split; [apply ipsec_conf_split|].
    split; [apply occurrences_right|].
    intros Hlf. rewrite (confAssignments_ipsec_conf server Hlf), confAssignments_fixed.
    split; [reflexivity|]. split; reflexivity.
  - intros Ho. unfold r. rewrite (Hok Ho).
    rewrite writtenTo_app, writtenTo_symlink, app_nil_r. exact Hsteps.
Qed.

Lemma ipsec_policy_right_and_ciphers_witness :
  In (ipsec_conf (lit "203.0.113.5"))
     (writtenTo (lit "/tmp/ipsec.conf")
        (traceOf (createConfigFiles (lit "203.0.113.5") (lit "alice")
                    (lit "pa55") (lit "s3cret") envQuiet world0)))
  /\ hasLineFeed (lit "203.0.113.5") = false
  /\ filter (fun kv => eqb (fst kv) (lit "right"))
       (confAssignments (ipsec_conf (lit "203.0.113.5")))
     = [(lit "right", lit "203.0.113.5")].
Proof.
  assert (Hin : In (ipsec_conf (lit "203.0.113.5"))
                   (writtenTo (lit "/tmp/ipsec.conf")
                      (traceOf (createConfigFiles (lit "203.0.113.5") (lit "alice")
                                  (lit "pa55") (lit "s3cret") envQuiet world0))))
    by (left; reflexivity).
  split; [exact Hin|]. split; [reflexivity|].
  exact (proj1 (proj2 (proj2 (proj2 (proj1 (ipsec_policy_right_and_ciphers
                                              (lit "203.0.113.5") (lit "alice")
                                              (lit "pa55") (lit "s3cret")
                                              envQuiet world0) _ Hin))
                               eq_refl))).
Defined.

(** ** When the resolver link is made *)

(** Either an input is missing or the installer fails, and [main] stops
    within its first seven interactions; or it goes on to generate the
    configuration and to connect. *)
Lemma main_cases fuel env w :
  (exists n e w',
      n < 7 /\ main fuel env w = (Throw e, w', firstn (S n) setupSteps))
  \/ (exists w7 server username password psk,
         idx w7 = idx w + 7
         /\ main fuel env w
            = after setupSteps
                ((createConfigFiles server username password psk ;;
                  connect fuel server) env w7)).
Proof.
  unfold main, installTools, core_getInput, core_info, exec, setupSteps.
  rewrite bind_eq, attempt_eq.
  destruct (failure (env (idx w))) as [e|];
    [left; exists 0, e; eexists; split; [lia | reflexivity]|].
  cbv beta iota. rewrite bind_eq, attempt_eq.
  destruct (failure (env (idx (advance env w 0)))) as [e|];
    [left; exists 1, e; eexists; split; [lia | reflexivity]|].
  cbv beta iota. rewrite bind_eq, attempt_eq.
  destruct (failure (env (idx (advance env (advance env w 0) 0)))) as [e|];
    [left; exists 2, e; eexists; split; [lia | reflexivity]|].
  cbv beta iota. rewrite bind_eq, attempt_eq.
  match goal with
  | |- context [failure (env (idx ?x))] =>
      destruct (failure (env (idx x))) as [e|]
  end; [left; exists 3, e; eexists; split; [lia | reflexivity]|].
  cbv beta iota. rewrite bind_eq, emit_eq.
  cbv beta iota. rewrite bind_assoc, bind_eq, attempt_eq.
  match goal with
  | |- context [failure (env (idx ?x))] =>
      destruct (failure (env (idx x))) as [e|]
  end; [left; exists 5, e; eexists; split; [lia | reflexivity]|].
  cbv beta iota. rewrite bind_eq, attempt_eq.
  match goal with
  | |- context [failure (env (idx ?x))] =>
      destruct (failure (env (idx x))) as [e|]
  end; [left; exists 6, e; eexists; split; [lia | reflexivity]|].
  cbv beta iota. right.
  match goal with
  | |- context [bind (createConfigFiles ?s ?u ?p ?k) _ env ?x] =>
      exists x, s, u, p, k
  end.
  split; [rewrite !advance_idx; lia|].
  unfold connect, after.
  match goal with
  | |- context [bind ?m ?k env ?x] => destruct (bind m k env x) as [[o w'] t]
  end.
  reflexivity.
Qed.

Lemma existsb_firstn_false {A} (Q : A -> bool) n l :
  existsb Q l = false -> existsb Q (firstn n l) = false.
Proof.
  intros H. rewrite <- (firstn_skipn n l), existsb_app in H.
  apply orb_false_iff in H. exact (proj1 H).
Qed.

Lemma quiet_symlink_connect fuel server : quiet isSymlink (connect fuel server).
Proof.
  unfold connect, console_log.
  apply quiet_bind; [apply quiet_symlink_startVPN | intro].
  apply quiet_bind; [apply quiet_payload; reflexivity | intro].
  apply quiet_emit. reflexivity.
Qed.

Lemma configSteps_last server username password psk :
  configSteps server username password psk
  = removelast (configSteps server username password psk)
    ++ [chmodStep (lit "/etc/resolv-vpn.conf")].
Proof. rewrite configSteps_eq. reflexivity. Qed.

(** C9 (as amended): in every run the resolver link is made at most once
    and as part of generating the configuration: directly after the mode
    of [/etc/resolv-vpn.conf] has been set successfully, before any daemon
    is started and before any status query, whether or not the tunnel is
    established afterwards. *)
Theorem resolver_link_is_made_with_the_configuration fuel env w :
  let t := traceOf (run fuel env w) in
  existsb isSymlink t = false
  \/ exists pre post,
       t = pre ++ chmodStep (lit "/etc/resolv-vpn.conf") :: symlinkStep :: post
       /\ failure (env (idx w + List.length pre)) = None
       /\ existsb isSymlink pre = false
       /\ existsb isSymlink post = false
       /\ existsb isDaemonStart pre = false
       /\ existsb isStatusQuery pre = false.
Proof.
  intros t. subst t. rewrite run_eq.
  destruct (main_cases fuel env w)
    as [(n & e & w' & _ & Hmain)
       | (w7 & server & username & password & psk & Hidx & Hmain)];
    rewrite Hmain.
  - left. observe. rewrite existsb_app.
    rewrite (existsb_firstn_false isSymlink (S n) setupSteps eq_refl).
    reflexivity.
  - rewrite bind_eq.
    destruct (createConfigFiles_cases server username password psk env w7)
      as [(n & e & w' & _ & _ & Hcfg) | (w' & Hall & Hcfg)]; rewrite Hcfg.
    + left. unfold after. observe. rewrite !existsb_app.
      rewrite (existsb_firstn_false isSymlink (S n)
                 (configSteps server username password psk))
        by (rewrite configSteps_eq; reflexivity).
      reflexivity.
    + right.
      pose proof (@quiet_symlink_connect fuel server env w') as Hquiet.
      assert (Htail : existsb isSymlink
                        (symlinkTail env
                           (idx w7 + List.length (configSteps server username password psk)))
                      = false).
      { unfold symlinkTail.
        destruct (failure (env (idx w7 + List.length
                                         (configSteps server username password psk))));
          reflexivity. }
      set (tail := symlinkTail env
                     (idx w7 + List.length (configSteps server username password psk)))
        in *.
      assert (Hchmod : failure
                         (env (idx w + List.length
                                         (setupSteps
                                          ++ removelast
                                               (configSteps server username password psk))))
                       = None).
      { replace (idx w + List.length
                           (setupSteps
                            ++ removelast (configSteps server username password psk)))
          with (idx w7 + 19) by (rewrite Hidx, configSteps_eq; simpl; lia).
        apply Hall. rewrite configSteps_eq. simpl. lia. }
      destruct (connect fuel server env w') as [[o w2] t2]. observe.
      exists (setupSteps ++ removelast (configSteps server username password psk)).
      assert (Hpre : existsb isSymlink
                       (setupSteps
                        ++ removelast (configSteps server username password psk)) = false
                     /\ existsb isDaemonStart
                          (setupSteps
                           ++ removelast (configSteps server username password psk)) = false
                     /\ existsb isStatusQuery
                          (setupSteps
                           ++ removelast (configSteps server username password psk)) = false).
      { rewrite configSteps_eq. repeat split; reflexivity. }
      destruct Hpre as (Hpre1 & Hpre2 & Hpre3).
      destruct o as [[]|e|]; unfold after; cbn [snd].
      * exists (tail ++ t2).
        split; [rewrite (configSteps_last server username password psk) at 1;
                rewrite <- !app_assoc; reflexivity|].
        repeat split; try assumption.
        rewrite existsb_app, Htail. exact Hquiet.
      * exists (tail ++ t2 ++ [SetFailed e]).
        split; [rewrite (configSteps_last server username password psk) at 1;
                rewrite <- !app_assoc; reflexivity|].
        repeat split; try assumption.
        rewrite !existsb_app, Htail, Hquiet. reflexivity.
      * exists (tail ++ t2).
        split; [rewrite (configSteps_last server username password psk) at 1;
                rewrite <- !app_assoc; reflexivity|].
        repeat split; try assumption.
        rewrite existsb_app, Htail. exact Hquiet.
Qed.

(** The claim as stated fails: here the IPsec daemon cannot be started and
    the run is reported as failed, yet the resolver link has been made,
    three interactions before the attempt to start the daemon. *)
Lemma resolver_link_precedes_daemon_start :
  traceOf (run 1 envDaemonRefused world0)
  = firstn 27 (traceOf (run 1 envDaemonRefused world0))
    ++ [ symlinkStep;
         Info (lit "All configuration files created successfully.");
         Info (lit "Starting the VPN connection...");
         Exec (lit "sudo ipsec start") [];
         SetFailed (lit "The process '/usr/bin/sudo' failed with exit code 1") ]
  /\ existsb isDaemonStart (firstn 27 (traceOf (run 1 envDaemonRefused world0))) = false
  /\ existsb isStatusQuery (traceOf (run 1 envDaemonRefused world0)) = false.
Proof. repeat split; vm_compute; reflexivity. Qed.

(** * Further properties of the program *)

(** ** What the three patterns accept *)

(** X1: the IPsec test of a tick passes exactly on the texts in which
    [L2TP-PSK] is followed, with no line terminator in between, by
    [ESTABLISHED]. *)
Theorem status_pattern_accepts text :
  ipsecEstablished text = true
  <-> exists a m b,
        text = a ++ lit "L2TP-PSK" ++ m ++ lit "ESTABLISHED" ++ b
        /\ forallb (fun c => negb (isLineTerminator c)) m = true.
Proof. unfold ipsecEstablished. apply testEstablished_spec. Qed.

Lemma trimStart_app_ws ws s :
  forallb isWhiteSpace ws = true -> trimStart (ws ++ s) = trimStart s.
Proof.
  induction ws as [|c ws IH]; intros H; [reflexivity|].
  cbn [forallb] in H. apply andb_true_iff in H. destruct H as [Hc Hws].
  cbn [app trimStart]. rewrite Hc. exact (IH Hws).
Qed.

Lemma trimStart_spec s :
  exists ws,
    s = ws ++ trimStart s
    /\ forallb isWhiteSpace ws = true
    /\ match trimStart s with
       | [] => True
       | c :: _ => isWhiteSpace c = false
       end.
Proof.
  induction s as [|c s IH].
  - exists []. repeat split.
  - cbn [trimStart]. destruct (isWhiteSpace c) eqn:Hc.
    + destruct IH as (ws & Hs & Hws & Hhead).
      exists (c :: ws). cbn [app forallb]. rewrite Hc, Hws, <- Hs. repeat split.
      exact Hhead.
    + exists []. repeat split. exact Hc.
Qed.

Lemma forallb_rev {A} (f : A -> bool) l : forallb f (rev l) = forallb f l.
Proof.
  induction l as [|x l IH]; [reflexivity|].
  cbn [rev forallb]. rewrite forallb_app, IH. cbn [forallb].
  rewrite andb_true_r. apply andb_comm.
Qed.

(** [trimEnd] removes the white space that follows the last character
    that is not white space. *)
Lemma trimEnd_after_last s c ws :
  isWhiteSpace c = false -> forallb isWhiteSpace ws = true ->
  trimEnd (s ++ c :: ws) = s ++ [c].
Proof.
  intros Hc Hws. unfold trimEnd.
  rewrite rev_app_distr. cbn [rev]. rewrite <- app_assoc. cbn [app].
  rewrite trimStart_app_ws by (rewrite forallb_rev; exact Hws).
  cbn [trimStart]. rewrite Hc.
  change (c :: rev s) with ([c] ++ rev s).
  rewrite rev_app_distr, rev_involutive. reflexivity.
Qed.

Lemma trimEnd_spec s :
  exists ws,
    s = trimEnd s ++ ws
    /\ forallb isWhiteSpace ws = true
    /\ match rev (trimEnd s) with
       | [] => True
       | c :: _ => isWhiteSpace c = false
       end.
Proof.
  destruct (trimStart_spec (rev s)) as (ws & Hs & Hws & Hhead).
  exists (rev ws). unfold trimEnd. rewrite rev_involutive.
  split; [|split; [rewrite forallb_rev; exact Hws | exact Hhead]].
  rewrite <- rev_app_distr, <- Hs, rev_involutive. reflexivity.
Qed.

(** A text with a character that is not white space ends with such a
    character followed by white space only. *)
Lemma last_non_space rest :
  existsb (fun c => negb (isWhiteSpace c)) rest = true ->
  exists r c ws,
    rest = r ++ c :: ws /\ isWhiteSpace c = false
    /\ forallb isWhiteSpace ws = true.
Proof.
  induction rest as [|x rest IH]; [discriminate|].
  cbn [existsb]. intros H.
  destruct (existsb (fun c => negb (isWhiteSpace c)) rest) eqn:E.
  - destruct (IH eq_refl) as (r & c & ws & -> & Hc & Hws).
    exists (x :: r), c, ws. repeat split; assumption.
  - rewrite orb_false_r in H. apply negb_true_iff in H.
    exists [], x, rest. split; [reflexivity|]. split; [exact H|].
    apply forallb_forall. intros y Hy.
    destruct (isWhiteSpace y) eqn:Ey; [reflexivity|].
    assert (Hex : existsb (fun c => negb (isWhiteSpace c)) rest = true).
    { apply existsb_exists. exists y. split; [exact Hy|]. rewrite Ey. reflexivity. }
    congruence.
Qed.

(** X2: a line of the interface text counts as an address line exactly
    when it is white space, then [inet] and a space, then something that
    is not all white space: a line that ends right after [inet] and
    blanks does not count, since [trim] takes the space away. *)
Theorem inet_line_accepts line :
  startsWith (trim line) (lit "inet ") = true
  <-> exists ws rest,
        line = ws ++ lit "inet " ++ rest
        /\ forallb isWhiteSpace ws = true
        /\ existsb (fun c => negb (isWhiteSpace c)) rest = true.
Proof.
  split.
  - intros H. apply startsWith_spec in H. destruct H as (r & Htrim).
    unfold trim in Htrim.
    destruct (trimStart_spec line) as (ws & Hline & Hws & _).
    destruct (trimEnd_spec (trimStart line)) as (ws2 & Hrest & Hws2 & Hlast).
    rewrite Htrim in Hrest, Hlast.
    exists ws, (r ++ ws2). split; [|split; [exact Hws|]].
    + rewrite Hline at 1. rewrite Hrest, <- app_assoc. reflexivity.
    + rewrite existsb_app. apply orb_true_iff. left.
      rewrite rev_app_distr in Hlast.
      destruct (rev r) as [|c r'] eqn:Hr.
      * cbn in Hlast. discriminate Hlast.
      * cbn [app] in Hlast. apply existsb_exists. exists c. split.
        -- apply in_rev. rewrite Hr. left. reflexivity.
        -- rewrite Hlast. reflexivity.
  - intros (ws & rest & -> & Hws & Hrest).
    destruct (last_non_space rest Hrest) as (r & c & ws2 & -> & Hc & Hws2).
    unfold trim. rewrite trimStart_app_ws by exact Hws.
    change (trimStart (lit "inet " ++ r ++ c :: ws2))
      with (lit "inet " ++ r ++ c :: ws2).
    rewrite app_assoc, trimEnd_after_last by assumption.
    apply startsWith_spec. exists (r ++ [c]). rewrite <- app_assoc. reflexivity.
Qed.

Lemma spanDigits_spec s :
  s = fst (spanDigits s) ++ snd (spanDigits s)
  /\ forallb isDigit (fst (spanDigits s)) = true.
Proof.
  induction s as [|c s IH]; [split; reflexivity|].
  cbn [spanDigits]. destruct (isDigit c) eqn:Hc.
  - destruct (spanDigits s) as [d r]. cbn [fst snd] in *.
    destruct IH as [Hs Hd]. split.
    + cbn [app]. rewrite <- Hs. reflexivity.
    + cbn [forallb]. rewrite Hc, Hd. reflexivity.
  - split; reflexivity.
Qed.

Lemma digitsDot_spec s d r :
  digitsDot s = Some (d, r) -> s = d ++ dot :: r /\ isDigits d = true.
Proof.
  unfold digitsDot. intros H.
  destruct (spanDigits_spec s) as [Hs Hd].
  destruct (spanDigits s) as [[|x d'] [|c r']]; try discriminate H.
  destruct (N.eqb_spec c dot) as [->|]; [|discriminate H].
  injection H as <- <-. cbn [fst snd] in *. split; [exact Hs|].
  unfold isDigits. cbn [truthy andb]. exact Hd.
Qed.

Lemma dottedQuadHere_spec s g :
  dottedQuadHere s = Some g ->
  exists d1 d2 d3 d4 b,
    s = g ++ b /\ g = dottedQuad d1 d2 d3 d4
    /\ isDigits d1 = true /\ isDigits d2 = true
    /\ isDigits d3 = true /\ isDigits d4 = true.
Proof.
  unfold dottedQuadHere. intros H.
  destruct (digitsDot s) as [[d1 r1]|] eqn:E1; [|discriminate H].
  destruct (digitsDot r1) as [[d2 r2]|] eqn:E2; [|discriminate H].
  destruct (digitsDot r2) as [[d3 r3]|] eqn:E3; [|discriminate H].
  apply digitsDot_spec in E1, E2, E3.
  destruct E1 as [-> H1], E2 as [-> H2], E3 as [-> H3].
  destruct (spanDigits_spec r3) as [Hr3 H4].
  destruct (fst (spanDigits r3)) as [|x d4] eqn:E4; [discriminate H|].
  injection H as <-.
  exists d1, d2, d3, (x :: d4), (snd (spanDigits r3)).
  split; [|repeat split; try assumption].
  rewrite Hr3 at 1. unfold dottedQuad.
  repeat (rewrite <- app_assoc; cbn [app]). reflexivity.
Qed.

Lemma spanDigits_digits_then d r :
  forallb isDigit d = true ->
  spanDigits (d ++ r) = (d ++ fst (spanDigits r), snd (spanDigits r)).
Proof.
  induction d as [|c d IH]; intros H; cbn [app].
  - destruct (spanDigits r). reflexivity.
  - cbn [forallb] in H. apply andb_true_iff in H. destruct H as [Hc Hd].
    cbn [spanDigits]. rewrite Hc, (IH Hd). reflexivity.
Qed.

Lemma digitsDot_digits_dot d r :
  isDigits d = true -> digitsDot (d ++ dot :: r) = Some (d, r).
Proof.
  unfold isDigits. intros H. apply andb_true_iff in H. destruct H as [Hne Hd].
  unfold digitsDot. rewrite (@spanDigits_digits_then d (dot :: r) Hd).
  cbn [spanDigits]. change (isDigit dot) with false. cbn [fst snd].
  rewrite app_nil_r. destruct d; [discriminate Hne|]. reflexivity.
Qed.

Lemma matchVia_sound s : forall g,
  matchVia s = Some g ->
  exists a b d1 d2 d3 d4,
    s = a ++ lit "via " ++ g ++ b
    /\ g = dottedQuad d1 d2 d3 d4
    /\ isDigits d1 = true /\ isDigits d2 = true
    /\ isDigits d3 = true /\ isDigits d4 = true.
Proof.
  induction s as [|c s IH]; intros g H; rewrite matchVia_eq in H.
  - discriminate H.
  - destruct (viaHere (c :: s)) as [g0|] eqn:E.
    + injection H as ->. unfold viaHere in E.
      destruct (startsWith (c :: s) (lit "via ")) eqn:Es; [|discriminate E].
      apply startsWith_spec in Es. destruct Es as (r & Hr).
      rewrite Hr in E. change (skipn 4 (lit "via " ++ r)) with r in E.
      destruct (dottedQuadHere_spec r E)
        as (d1 & d2 & d3 & d4 & b & -> & Hg & H1 & H2 & H3 & H4).
      exists [], b, d1, d2, d3, d4. rewrite Hr.
      repeat split; assumption.
    + destruct (IH g H) as (a & b & d1 & d2 & d3 & d4 & -> & Hg & Hd).
      exists (c :: a), b, d1, d2, d3, d4. split; [reflexivity|].
      split; assumption.
Qed.

Lemma matchVia_complete a b d1 d2 d3 d4 :
  isDigits d1 = true -> isDigits d2 = true ->
  isDigits d3 = true -> isDigits d4 = true ->
  matchVia (a ++ lit "via " ++ dottedQuad d1 d2 d3 d4 ++ b) <> None.
Proof.
  intros H1 H2 H3 H4.
  assert (Hhere : exists g,
             viaHere (lit "via " ++ dottedQuad d1 d2 d3 d4 ++ b) = Some g).
  { unfold viaHere.
    change (startsWith (lit "via " ++ dottedQuad d1 d2 d3 d4 ++ b) (lit "via "))
      with true.
    change (skipn 4 (lit "via " ++ dottedQuad d1 d2 d3 d4 ++ b))
      with (dottedQuad d1 d2 d3 d4 ++ b).
    unfold dottedQuad, dottedQuadHere.
    repeat (rewrite <- app_assoc; cbn [app]).
    rewrite (@digitsDot_digits_dot d1 _ H1), (@digitsDot_digits_dot d2 _ H2),
      (@digitsDot_digits_dot d3 _ H3).
    unfold isDigits in H4. apply andb_true_iff in H4. destruct H4 as [Hne Hd].
    rewrite (@spanDigits_digits_then d4 b Hd). cbn [fst].
    destruct d4 as [|x d4]; [discriminate Hne|]. eexists. reflexivity. }
  destruct Hhere as (g & Hg).
  assert (Hm : matchVia (lit "via " ++ dottedQuad d1 d2 d3 d4 ++ b) = Some g).
  { rewrite matchVia_eq, Hg. reflexivity. }
  destruct (matchVia_app_l a _ Hm) as (g' & Hg'). rewrite Hg'. discriminate.
Qed.

Lemma matchVia_truthy s g : matchVia s = Some g -> truthy g = true.
Proof.
  intros H.
  destruct (matchVia_sound s H) as (_ & _ & d1 & d2 & d3 & d4 & _ & -> & H1 & _).
  unfold isDigits in H1. apply andb_true_iff in H1. destruct H1 as [Hne _].
  destruct d1; [discriminate Hne | reflexivity].
Qed.

(** X3: the gateway pattern finds something exactly in the texts that
    hold [via ] followed by four non-empty runs of digits separated by
    dots; and what it captures is such a group, standing in the text right
    after a [via ]. *)
Theorem gateway_pattern_accepts :
  (forall s g,
     matchVia s = Some g ->
     exists a b d1 d2 d3 d4,
       s = a ++ lit "via " ++ g ++ b
       /\ g = dottedQuad d1 d2 d3 d4
       /\ isDigits d1 = true /\ isDigits d2 = true
       /\ isDigits d3 = true /\ isDigits d4 = true)
  /\ (forall a b d1 d2 d3 d4,
        isDigits d1 = true -> isDigits d2 = true ->
        isDigits d3 = true -> isDigits d4 = true ->
        matchVia (a ++ lit "via " ++ dottedQuad d1 d2 d3 d4 ++ b) <> None).
Proof.
  split; [exact matchVia_sound | exact matchVia_complete].
Qed.

Lemma gateway_pattern_accepts_witness :
  matchVia (lit "203.0.113.5 " ++ lit "via "
            ++ dottedQuad (lit "172") (lit "17") (lit "0") (lit "1")
            ++ lit " dev eth0") <> None.
Proof.
  apply (proj2 gateway_pattern_accepts); reflexivity.
Defined.

Lemma fold_gateway chunks : forall acc,
  let r := fold_left
             (fun gateway data =>
                match matchVia data with
                | Some g => g
                | None => gateway
                end) chunks acc in
  ((forall c, In c chunks -> matchVia c = None) /\ r = acc)
  \/ (exists before c later,
         chunks = before ++ c :: later
         /\ matchVia c = Some r
         /\ forall c', In c' later -> matchVia c' = None).
Proof.
  induction chunks as [|x chunks IH]; intros acc; cbn [fold_left].
  - left. split; [intros c []|reflexivity].
  - destruct (IH (match matchVia x with Some g => g | None => acc end))
      as [[Hnone Hr] | (before & c & later & -> & Hc & Hlater)].
    + destruct (matchVia x) as [g|] eqn:Ex.
      * right. exists [], x, chunks. cbv zeta. rewrite Hr.
        split; [reflexivity|]. split; [exact Ex | exact Hnone].
      * left. split; [|exact Hr].
        intros c [<- | Hin]; [exact Ex | exact (Hnone c Hin)].
    + right. exists (x :: before), c, later.
      split; [reflexivity|]. split; [exact Hc | exact Hlater].
Qed.

(** X4: the gateway that [commitRoutes] uses is what the pattern captures
    in the last chunk of output that has a match, and is empty only when
    no chunk has one.  A chunk is matched on its own: a token cut in two
    by a chunk boundary is not seen as one. *)
Theorem gateway_is_last_matching_chunk chunks :
  ((forall c, In c chunks -> matchVia c = None) /\ gatewayOf chunks = [])
  \/ (exists before c later,
         chunks = before ++ c :: later
         /\ matchVia c = Some (gatewayOf chunks)
         /\ (forall c', In c' later -> matchVia c' = None)
         /\ truthy (gatewayOf chunks) = true).
Proof.
  unfold gatewayOf.
  destruct (fold_gateway chunks [])
    as [H | (before & c & later & Hchunks & Hc & Hlater)]; [left; exact H|].
  right. exists before, c, later. repeat split; try assumption.
  exact (matchVia_truthy _ Hc).
Qed.

(** ** The order of the route commands *)

(** C3: in every execution of [commitRoutes] the log is the route query
    alone, or the query and [ip route add <server> via <gateway> dev eth0],
    or these two and [ip route replace default dev ppp0]: the default
    route is replaced with the tunnel interface only after the host route
    to the server has been added successfully, and nothing, so no addition
    of a route, ever comes after the replacement.  The gateway of the host
    route is discovered: it is not empty and stands right after [via ] in
    a chunk of what the route query printed. *)
Theorem host_route_before_default_route server env w :
  let t := traceOf (commitRoutes server env w) in
  let gateway := gatewayOf (stdout (env (idx w))) in
  let get := Exec (lit "ip route get " ++ server) [] in
  let add :=
    Exec (lit "ip route add " ++ server ++ lit " via " ++ gateway ++ lit " dev eth0") [] in
  let replace := Exec (lit "ip route replace default dev ppp0") [] in
  (t = [get] \/ t = [get; add]
   \/ (t = [get; add; replace] /\ failure (env (S (idx w))) = None))
  /\ (In replace t -> precedes add replace t)
  /\ (forall ev, ~ precedes replace ev t)
  /\ (In add t ->
      failure (env (idx w)) = None
      /\ truthy gateway = true
      /\ exists chunk a b,
           In chunk (stdout (env (idx w)))
           /\ chunk = a ++ lit "via " ++ gateway ++ b).
Proof.
  intros t gateway get add replace.
  assert (Hfound : truthy gateway = true ->
                   exists chunk a b,
                     In chunk (stdout (env (idx w)))
                     /\ chunk = a ++ lit "via " ++ gateway ++ b).
  { intros Hg. unfold gateway, gatewayOf in *.
    destruct (fold_gateway (stdout (env (idx w))) [])
      as [[_ Hnone] | (before & c & later & Hchunks & Hc & _)].
    - cbv zeta in Hnone. rewrite Hnone in Hg. discriminate Hg.
    - cbv zeta in Hc.
      destruct (matchVia_sound c Hc) as (a & b & _ & _ & _ & _ & Hs & _).
      exists c, a, b. split; [|exact Hs].
      rewrite Hchunks. apply in_or_app. right. left. reflexivity. }
  assert (Hshape : (t = [get] /\ (failure (env (idx w)) <> None \/ truthy gateway = false))
                   \/ ((t = [get; add]
                        \/ (t = [get; add; replace]
                            /\ failure (env (S (idx w))) = None))
                       /\ failure (env (idx w)) = None /\ truthy gateway = true)).
  { subst t. rewrite commitRoutes_eq. cbv zeta.
    change (gatewayOf (stdout (env (idx w)))) with gateway.
    change (Exec (routeGet server) []) with get.
    change (Exec (routeAdd server gateway) []) with add.
    change (Exec routeReplace []) with replace.
    destruct (failure (env (idx w))); [left; split; [reflexivity | left; discriminate]|].
    destruct (truthy gateway); [|left; split; [reflexivity | right; reflexivity]].
    right. split; [|split; reflexivity].
    destruct (failure (env (S (idx w)))) eqn:E1; [left; reflexivity|].
    destruct (failure (env (S (S (idx w)))));
      right; split; reflexivity. }
  assert (Hne1 : replace <> get).
  { intros H. apply (f_equal isRouteMutation) in H. discriminate H. }
  assert (Hne2 : replace <> add).
  { intros H. apply (f_equal isRouteAdd) in H. discriminate H. }
  assert (Hne3 : add <> get).
  { intros H. apply (f_equal isRouteAdd) in H. discriminate H. }
  split; [|split; [|split]].
  - destruct Hshape as [[Ht _] | [[Ht | Ht] _]]; auto.
  - intros Hin.
    destruct Hshape as [[Ht _] | [[Ht | [Ht _]] _]]; rewrite Ht in *.
    + destruct Hin as [H | []]. exfalso. exact (Hne1 (eq_sym H)).
    + destruct Hin as [H | [H | []]]; exfalso.
      * exact (Hne1 (eq_sym H)).
      * exact (Hne2 (eq_sym H)).
    + exists [get], [], []. reflexivity.
  - intros ev Hp. apply precedes_not_last in Hp.
    destruct Hshape as [[Ht _] | [[Ht | [Ht _]] _]]; rewrite Ht in Hp; simpl in Hp.
    + exact Hp.
    + destruct Hp as [H | []]. exact (Hne1 (eq_sym H)).
    + destruct Hp as [H | [H | []]].
      * exact (Hne1 (eq_sym H)).
      * exact (Hne2 (eq_sym H)).
  - intros Hin.
    destruct Hshape as [[Ht _] | [_ [Hok Hg]]].
    + rewrite Ht in Hin. destruct Hin as [H | []].
      exfalso. exact (Hne3 (eq_sym H)).
    + split; [exact Hok|]. split; [exact Hg | exact (Hfound Hg)].
Qed.

Lemma host_route_before_default_route_witness :
  In (Exec (lit "ip route replace default dev ppp0") [])
     (traceOf (commitRoutes (lit "203.0.113.5") envGateway world0))
  /\ precedes (Exec (lit "ip route add 203.0.113.5 via 172.17.0.1 dev eth0") [])
              (Exec (lit "ip route replace default dev ppp0") [])
              (traceOf (commitRoutes (lit "203.0.113.5") envGateway world0)).
Proof.
  assert (Hin : In (Exec (lit "ip route replace default dev ppp0") [])
                   (traceOf (commitRoutes (lit "203.0.113.5") envGateway world0))).
  { right. right. left. reflexivity. }
  split; [exact Hin|].
  exact (proj1 (proj2 (host_route_before_default_route
                         (lit "203.0.113.5") envGateway world0)) Hin).
Defined.

(** ** What is fatal and what is not *)

Lemma createSymlinkWithSudo_eq target source env w :
  createSymlinkWithSudo target source env w
  = let link := Exec (lit "sudo") [lit "ln"; lit "-fs"; source; target] in
    match failure (env (idx w)) with
    | None => (Ok tt, advance env w 0, [link])
    | Some e =>
        (Ok tt, advance env (advance env w 0) 0,
         [link;
          Warning (lit "Failed to create symlink from " ++ source
                   ++ lit " to " ++ target ++ lit ": " ++ e)])
    end.
Proof.
  unfold createSymlinkWithSudo, exec, core_warning, try_catch.
  rewrite attempt_eq. destruct (failure (env (idx w))); reflexivity.
Qed.

(** X5: a refused resolver link is never an error.  [createSymlinkWithSudo]
    does not throw; [createConfigFiles] succeeds exactly when its twenty
    artifact steps do, whatever the answer to the link command; and a
    refusal leaves a warning that carries its cause. *)
Theorem resolver_link_failure_is_tolerated :
  (forall target source env w e,
     outcomeOf (createSymlinkWithSudo target source env w) <> Throw e)
  /\ (forall server username password psk env w,
        let r := createConfigFiles server username password psk env w in
        (outcomeOf r = Ok tt
         <-> forall n, n < 20 -> failure (env (idx w + n)) = None)
        /\ (outcomeOf r = Ok tt ->
            forall e,
              failure (env (idx w + 20)) = Some e ->
              In (Warning
                    (lit "Failed to create symlink from /etc/resolv-vpn.conf to /etc/resolv.conf: "
                     ++ e))
                 (traceOf r))).
Proof.
  split.
  - intros target source env w e. rewrite createSymlinkWithSudo_eq. cbv zeta.
    destruct (failure (env (idx w))); discriminate.
  - intros server username password psk env w r. subst r.
    assert (Hlen : List.length (configSteps server username password psk) = 20)
      by (rewrite configSteps_eq; reflexivity).
    destruct (createConfigFiles_cases server username password psk env w)
      as [(n & e & w' & Hn & Hfail & Heq) | (w' & Hall & Heq)];
      cbv zeta in *; rewrite Hlen in *; rewrite Heq; observe.
    + split; [|discriminate]. split; [discriminate|].
      intros Hall. rewrite (Hall n Hn) in Hfail. discriminate Hfail.
    + split; [split; [intros _; exact Hall | reflexivity]|].
      intros _ e He. apply in_or_app. right. right.
      unfold symlinkTail. rewrite He. left. reflexivity.
Qed.

Lemma quiet_setFailed_main fuel : quiet isSetFailed (main fuel).
Proof. unfold_program. quiet_tac. Qed.

(** X6: [run] never throws.  When a step of its body throws, the log is
    that of the body followed by one [core.setFailed] with the message
    thrown; otherwise nothing is reported.  The body itself never sets
    the failure status. *)
Theorem run_reports_each_error_once fuel env w :
  (forall e, outcomeOf (run fuel env w) <> Throw e)
  /\ (forall e,
        outcomeOf (main fuel env w) = Throw e ->
        traceOf (run fuel env w) = traceOf (main fuel env w) ++ [SetFailed e])
  /\ ((forall e, outcomeOf (main fuel env w) <> Throw e) ->
      traceOf (run fuel env w) = traceOf (main fuel env w))
  /\ existsb isSetFailed (traceOf (main fuel env w)) = false.
Proof.
  pose proof (@quiet_setFailed_main fuel env w) as Hquiet.
  rewrite run_eq.
  destruct (main fuel env w) as [[[[]|e1|] w1] t1]; observe;
    (split; [intros e; discriminate|]); (split; [|split; [|exact Hquiet]]);
    try (intros e He; discriminate He); try (intros _; reflexivity).
  - intros e He. injection He as ->. reflexivity.
  - intros Hno. exfalso. exact (Hno e1 eq_refl).
Qed.

Section Aborts.

Variable P : Event -> bool.
Hypothesis P_setFailed : forall e, P (SetFailed e) = false.
Hypothesis P_fatal : forall fuel, fatal P (main fuel).

(** In a run, an interaction on which the body is fatal is followed, when
    rejected, by the report of its error and nothing else. *)
Lemma run_aborts fuel env w pre ev post e :
  traceOf (run fuel env w) = pre ++ ev :: post ->
  P ev = true ->
  failure (env (idx w + List.length pre)) = Some e ->
  post = [SetFailed e].
Proof.
  intros Ht HP Hfail. rewrite run_eq in Ht.
  pose proof (@P_fatal fuel env w) as Hfatal.
  destruct (main fuel env w) as [[o w1] t1] eqn:Em. observe.
  assert (Hmain : forall post', t1 = pre ++ ev :: post' ->
                                post' = [] /\ o = Throw e).
  { intros post' H. exact (Hfatal pre ev post' e H HP Hfail). }
  destruct o as [a|e1|]; cbn [snd] in Ht.
  - destruct (Hmain post Ht) as [_ Ho]. discriminate Ho.
  - apply app_eq_app in Ht. destruct Ht as (l & [[H1 H2] | [H1 H2]]).
    + destruct l as [|x l]; simpl in H2; injection H2 as Hev Hpost.
      * subst ev. rewrite P_setFailed in HP. discriminate HP.
      * subst x. destruct (Hmain l H1) as [Hl Ho]. injection Ho as He.
        subst l e1. exact Hpost.
    + destruct l as [|x [|y l]]; simpl in H2; try discriminate H2.
      injection H2 as Hev _. subst ev. rewrite P_setFailed in HP. discriminate HP.
  - destruct (Hmain post Ht) as [_ Ho]. discriminate Ho.
Qed.

End Aborts.

Lemma fatal_step_waitForVpnConnection fuel timeout interval :
  fatal isFatalStep (waitForVpnConnection fuel timeout interval).
Proof.
  unfold waitForVpnConnection, fs_readFile.
  apply fatal_bind; [apply counted_Date_now | apply fatal_quiet, quiet_Date_now | intro].
  apply fatal_bind; [apply counted_pollLoop | | intros [v|]].
  - apply fatal_quiet. apply quiet_pollLoop; reflexivity.
  - apply fatal_quiet, quiet_ret.
  - apply fatal_bind; [apply counted_attempt | apply fatal_attempt | intro].
    apply fatal_quiet, quiet_throw.
Qed.

Ltac fatal_step_tac :=
  repeat lazymatch goal with
    | |- fatal _ (bind _ _) => apply fatal_bind; [solve [counted_prog] | | intro]
    | |- fatal _ (attempt _ _) => apply fatal_attempt
    | |- fatal _ (waitForVpnConnection _ _ _) => apply fatal_step_waitForVpnConnection
    | |- fatal _ (if ?b then _ else _) => destruct b
    | |- fatal _ (let x := _ in _) => cbv zeta
    | |- fatal _ _ => apply fatal_quiet; solve [quiet_tac]
    end.

Lemma fatal_step_main fuel : fatal isFatalStep (main fuel).
Proof. unfold_program. cbv zeta. fatal_step_tac. Qed.

(** X7: in a run, every rejected read of an input, write or read of a
    file, and command other than the resolver link and the two status
    queries ends the run: it is followed by [core.setFailed] with its
    error and by nothing else. *)
Theorem rejected_step_ends_the_run fuel env w pre ev post e :
  traceOf (run fuel env w) = pre ++ ev :: post ->
  isFatalStep ev = true ->
  failure (env (idx w + List.length pre)) = Some e ->
  post = [SetFailed e].
Proof.
  apply run_aborts; [reflexivity | exact fatal_step_main].
Qed.

Lemma rejected_step_ends_the_run_witness :
  traceOf (run 1 envDaemonRefused world0)
  = firstn 30 (traceOf (run 1 envDaemonRefused world0))
    ++ Exec (lit "sudo ipsec start") []
    :: [SetFailed (lit "The process '/usr/bin/sudo' failed with exit code 1")]
  /\ [SetFailed (lit "The process '/usr/bin/sudo' failed with exit code 1")]
     = [SetFailed (lit "The process '/usr/bin/sudo' failed with exit code 1")].
Proof.
  assert (Ht : traceOf (run 1 envDaemonRefused world0)
               = firstn 30 (traceOf (run 1 envDaemonRefused world0))
                 ++ Exec (lit "sudo ipsec start") []
                 :: [SetFailed (lit "The process '/usr/bin/sudo' failed with exit code 1")])
    by (vm_compute; reflexivity).
  split; [exact Ht|].
  exact (@rejected_step_ends_the_run 1 envDaemonRefused world0 _ _ _ _ Ht
           eq_refl eq_refl).
Defined.

(** ** The order of startVPN *)

Lemma startVPN_eq fuel server env w :
  startVPN fuel server env w
  = let i1 := Info (lit "Starting the VPN connection...") in
    let s1 := Exec (lit "sudo ipsec start") [] in
    let s2 := Exec (lit "sudo xl2tpd -C /tmp/l2tp-control") [] in
    let i2 := Info (lit "Waiting for the VPN connection to start...") in
    let w1 := advance env w 0 in
    let w2 := advance env w1 0 in
    let w3 := advance env w2 0 in
    let w4 := advance env w3 0 in
    match failure (env (S (idx w))) with
    | Some e => (Throw e, w2, [i1; s1])
    | None =>
        match failure (env (S (S (idx w)))) with
        | Some e => (Throw e, w3, [i1; s1; s2])
        | None =>
            after [i1; s1; s2; i2]
              ((waitForVpnConnection fuel default_timeout default_interval ;;
                core_info (lit "VPN connection established!") ;;
                core_info (lit "Settings routes...") ;;
                commitRoutes server) env w4)
        end
    end.
Proof.
  unfold startVPN, core_info, exec. cbv zeta.
  rewrite bind_eq, emit_eq. cbv beta iota.
  rewrite bind_eq, attempt_eq, advance_idx.
  destruct (failure (env (S (idx w)))); [reflexivity|].
  cbv beta iota. rewrite bind_eq, attempt_eq, !advance_idx.
  destruct (failure (env (S (S (idx w))))); [reflexivity|].
  cbv beta iota. rewrite bind_eq, emit_eq. cbv beta iota. unfold after.
  match goal with
  | |- context [bind ?m ?k env ?x] => destruct (bind m k env x) as [[o w'] t]
  end.
  reflexivity.
Qed.

Lemma quiet_daemon_polling fuel server :
  quiet isDaemonStart
    (waitForVpnConnection fuel default_timeout default_interval ;;
     core_info (lit "VPN connection established!") ;;
     core_info (lit "Settings routes...") ;;
     commitRoutes server).
Proof. unfold_program. quiet_tac. Qed.

(** X8: [startVPN] starts the IPsec daemon first and the L2TP daemon only
    when that start succeeded; it begins to poll only when both starts
    succeeded.  A start that is refused ends [startVPN] with its error,
    and no daemon is started a second time. *)
Theorem daemons_start_in_order fuel server env w :
  let r := startVPN fuel server env w in
  let i1 := Info (lit "Starting the VPN connection...") in
  let s1 := Exec (lit "sudo ipsec start") [] in
  let s2 := Exec (lit "sudo xl2tpd -C /tmp/l2tp-control") [] in
  let i2 := Info (lit "Waiting for the VPN connection to start...") in
  (exists e, failure (env (S (idx w))) = Some e
             /\ outcomeOf r = Throw e /\ traceOf r = [i1; s1])
  \/ (exists e, failure (env (S (idx w))) = None
                /\ failure (env (S (S (idx w)))) = Some e
                /\ outcomeOf r = Throw e /\ traceOf r = [i1; s1; s2])
  \/ (failure (env (S (idx w))) = None
      /\ failure (env (S (S (idx w)))) = None
      /\ exists rest, traceOf r = [i1; s1; s2; i2] ++ rest
                      /\ existsb isDaemonStart rest = false).
Proof.
  cbv zeta. rewrite startVPN_eq. cbv zeta.
  destruct (failure (env (S (idx w)))) as [e|].
  - left. exists e. repeat split.
  - destruct (failure (env (S (S (idx w))))) as [e|].
    + right. left. exists e. repeat split.
    + right. right. split; [reflexivity|]. split; [reflexivity|].
      pose proof (@quiet_daemon_polling fuel server env
                    (advance env (advance env (advance env (advance env w 0) 0) 0) 0))
        as Hquiet.
      match goal with
      | |- context [bind ?m ?k env ?x] => destruct (bind m k env x) as [[o w'] t]
      end.
      exists t. split; [reflexivity | exact Hquiet].
Qed.

(** ** Ready means ready *)

Lemma readyAt_true env n :
  readyAt env n = true ->
  failure (env n) = None /\ failure (env (S n)) = None
  /\ ipsecEstablished (List.concat (stdout (env n))) = true
  /\ pppInterfaceUp (List.concat (stdout (env (S n)))) = true.
Proof.
  unfold readyAt. intros H.
  destruct (failure (env n)); [discriminate H|].
  destruct (failure (env (S n))); [discriminate H|].
  apply andb_true_iff in H. destruct H as [H1 H2]. repeat split; assumption.
Qed.

Lemma pollLoop_returns timeout interval env fuel : forall start w v w' t,
  pollLoop fuel start timeout interval env w = (Ok (Some v), w', t) ->
  v = true
  /\ exists pre,
       t = pre ++ [statusQuery; ifaceQuery]
       /\ readyAt env (idx w + List.length pre) = true.
Proof.
  induction fuel as [|fuel IH]; intros start w v w' t H; [discriminate H|].
  rewrite pollLoop_step in H.
  destruct (clock w - start <? timeout)%Z; [|discriminate H].
  destruct (readyAt env (idx w)) eqn:Hnow.
  - injection H as <- _ <-. split; [reflexivity|].
    exists []. rewrite (readyAt_tickTrace env w Hnow), Nat.add_0_r.
    split; [reflexivity | exact Hnow].
  - pose proof (tickWorld_idx env w) as Hidx.
    specialize (IH start (advance env (tickWorld env w) (timerDelay interval))).
    destruct (pollLoop fuel start timeout interval env
                (advance env (tickWorld env w) (timerDelay interval)))
      as [[o w2] t2].
    unfold after in H. injection H as -> _ <-.
    destruct (IH v w2 t2 eq_refl) as (Hv & pre & -> & Hready).
    split; [exact Hv|].
    exists ((tickTrace env w ++ [Sleep interval]) ++ pre).
    split; [rewrite <- !app_assoc; reflexivity|].
    rewrite advance_idx, Hidx in Hready.
    rewrite !length_app. cbn [List.length].
    replace (idx w + (List.length (tickTrace env w) + 1 + List.length pre))
      with (S (idx w + List.length (tickTrace env w)) + List.length pre) by lia.
    exact Hready.
Qed.

Lemma waitForVpnConnection_returns fuel timeout interval env w v w' t :
  waitForVpnConnection fuel timeout interval env w = (Ok v, w', t) ->
  v = true
  /\ exists pre,
       t = pre ++ [statusQuery; ifaceQuery]
       /\ readyAt env (idx w + List.length pre) = true.
Proof.
  rewrite waitForVpnConnection_eq. intros H.
  pose proof (@pollLoop_returns timeout interval env fuel (clock w) w) as Hloop.
  destruct (pollLoop fuel (clock w) timeout interval env w)
    as [[[[v1|]|e1|] w1] t1]; try discriminate H.
  - injection H as <- _ <-. exact (Hloop v1 w1 t1 eq_refl).
  - destruct (failure (env (idx w1))); discriminate H.
Qed.

(** X9: [waitForVpnConnection] returns only [true], and only at the end
    of a tick whose two queries both succeeded and whose outputs passed
    both tests: the status query and the interface query of that tick are
    the last two interactions. *)
Theorem ready_only_after_a_passing_tick fuel timeout interval env w v w' t :
  waitForVpnConnection fuel timeout interval env w = (Ok v, w', t) ->
  v = true
  /\ exists pre,
       t = pre ++ [statusQuery; ifaceQuery]
       /\ failure (env (idx w + List.length pre)) = None
       /\ failure (env (S (idx w + List.length pre))) = None
       /\ ipsecEstablished
            (List.concat (stdout (env (idx w + List.length pre)))) = true
       /\ pppInterfaceUp
            (List.concat (stdout (env (S (idx w + List.length pre))))) = true.
Proof.
  intros H. destruct (waitForVpnConnection_returns _ _ _ _ _ H)
    as (Hv & pre & Ht & Hready).
  split; [exact Hv|]. exists pre. split; [exact Ht|].
  exact (readyAt_true env _ Hready).
Qed.

Lemma ready_only_after_a_passing_tick_witness :
  true = true
  /\ exists pre,
       [statusQuery; ifaceQuery; Sleep 1000; statusQuery; ifaceQuery]
       = pre ++ [statusQuery; ifaceQuery]
       /\ failure (envUpAtSecondTick (idx world0 + List.length pre)) = None
       /\ failure (envUpAtSecondTick (S (idx world0 + List.length pre))) = None
       /\ ipsecEstablished
            (List.concat (stdout (envUpAtSecondTick (idx world0 + List.length pre))))
          = true
       /\ pppInterfaceUp
            (List.concat
               (stdout (envUpAtSecondTick (S (idx world0 + List.length pre)))))
          = true.
Proof.
  apply (@ready_only_after_a_passing_tick 5 default_timeout default_interval
           envUpAtSecondTick world0 true {| idx := 5; clock := 1000 |}).
  reflexivity.
Defined.

(** ** Routes change only when the tunnel is up *)

(** An event of a class that the head of a log is free of lies in the
    rest of the log. *)
Lemma locate_after_quiet (P : Event -> bool) q c pre ev post :
  existsb P q = false ->
  q ++ c = pre ++ ev :: post ->
  P ev = true ->
  exists pre_c, pre = q ++ pre_c /\ c = pre_c ++ ev :: post.
Proof.
  intros Hq Ht HP. apply app_eq_app in Ht.
  destruct Ht as (l & [[H1 H2] | [H1 H2]]).
  - destruct l as [|x l].
    + exists []. rewrite app_nil_r in *. split; [symmetry; exact H1 | symmetry; exact H2].
    + simpl in H2. injection H2 as Hx _. subst x q.
      rewrite existsb_app in Hq. simpl in Hq. rewrite HP in Hq.
      rewrite orb_true_r in Hq. discriminate Hq.
  - exists l. split; assumption.
Qed.

Lemma absent_from_quiet (P : Event -> bool) t pre ev post :
  existsb P t = false -> t = pre ++ ev :: post -> P ev = true -> False.
Proof.
  intros Hq -> HP. rewrite existsb_app in Hq. cbn [existsb] in Hq.
  rewrite HP, orb_true_r in Hq. discriminate Hq.
Qed.

Lemma quiet_status_commitRoutes server : quiet isStatusQuery (commitRoutes server).
Proof. unfold_program. quiet_tac. Qed.

(** X10: [startVPN] touches the route table only when the tunnel is up:
    every route command it issues comes after a tick in which both
    queries succeeded and both tests passed, and no further tick lies in
    between. *)
Theorem routes_change_only_after_ready fuel server env w pre ev post :
  traceOf (startVPN fuel server env w) = pre ++ ev :: post ->
  isRouteMutation ev = true ->
  exists before between,
    pre = before ++ statusQuery :: ifaceQuery :: between
    /\ readyAt env (idx w + List.length before) = true
    /\ existsb isStatusQuery between = false.
Proof.
  intros Ht Hev. rewrite startVPN_eq in Ht. cbv zeta in Ht.
  destruct (failure (env (S (idx w))));
    [exfalso; observe;
     refine (@absent_from_quiet isRouteMutation _ _ _ _ _ Ht Hev); reflexivity|].
  destruct (failure (env (S (S (idx w)))));
    [exfalso; observe;
     refine (@absent_from_quiet isRouteMutation _ _ _ _ _ Ht Hev); reflexivity|].
  set (w4 := advance env (advance env (advance env (advance env w 0) 0) 0) 0) in *.
  assert (Hw4 : idx w4 = idx w + 4) by (unfold w4; rewrite !advance_idx; lia).
  rewrite bind_eq in Ht.
  pose proof (@quiet_waitForVpnConnection isRouteMutation eq_refl eq_refl
                (fun _ => eq_refl) eq_refl fuel default_timeout default_interval
                env w4) as Hwait.
  pose proof (@waitForVpnConnection_returns fuel default_timeout default_interval
                env w4) as Hret.
  destruct (waitForVpnConnection fuel default_timeout default_interval env w4)
    as [[[v|e|] w5] t5]; unfold after in Ht; observe.
  - destruct (Hret v w5 t5 eq_refl) as (_ & p5 & -> & Hready).
    unfold core_info in Ht. rewrite bind_eq, emit_eq in Ht. cbv beta iota in Ht.
    rewrite bind_eq, emit_eq in Ht. cbv beta iota in Ht.
    pose proof (@quiet_status_commitRoutes server env
                  (advance env (advance env w5 0) 0)) as Hcommit.
    destruct (commitRoutes server env (advance env (advance env w5 0) 0))
      as [[o w6] t6]. observe. cbn [snd] in Ht.
    match type of Ht with
    | ?l = _ =>
        assert (Hshape : l
                         = ([Info (lit "Starting the VPN connection...");
                             Exec (lit "sudo ipsec start") [];
                             Exec (lit "sudo xl2tpd -C /tmp/l2tp-control") [];
                             Info (lit "Waiting for the VPN connection to start...")]
                            ++ (p5 ++ [statusQuery; ifaceQuery])
                            ++ [Info (lit "VPN connection established!");
                                Info (lit "Settings routes...")])
                           ++ t6)
          by (rewrite <- !app_assoc; reflexivity)
    end.
    rewrite Hshape in Ht.
    assert (Hbefore : existsb isRouteMutation
                        ([Info (lit "Starting the VPN connection...");
                          Exec (lit "sudo ipsec start") [];
                          Exec (lit "sudo xl2tpd -C /tmp/l2tp-control") [];
                          Info (lit "Waiting for the VPN connection to start...")]
                         ++ (p5 ++ [statusQuery; ifaceQuery])
                         ++ [Info (lit "VPN connection established!");
                             Info (lit "Settings routes...")]) = false)
      by (rewrite existsb_app,
            (existsb_app isRouteMutation (p5 ++ [statusQuery; ifaceQuery])),
            Hwait; reflexivity).
    destruct (@locate_after_quiet _ _ _ _ _ _ Hbefore Ht Hev) as (pre6 & Hpre & Ht6).
    exists ([Info (lit "Starting the VPN connection...");
             Exec (lit "sudo ipsec start") [];
             Exec (lit "sudo xl2tpd -C /tmp/l2tp-control") [];
             Info (lit "Waiting for the VPN connection to start...")] ++ p5),
      ([Info (lit "VPN connection established!");
        Info (lit "Settings routes...")] ++ pre6).
    split; [rewrite Hpre, <- !app_assoc; reflexivity|]. split.
    + rewrite length_app. cbn [List.length].
      replace (idx w + (4 + List.length p5)) with (idx w4 + List.length p5) by lia.
      exact Hready.
    + rewrite Ht6, existsb_app in Hcommit.
      apply orb_false_iff in Hcommit. destruct Hcommit as [Hpre6 _].
      rewrite existsb_app, Hpre6. reflexivity.
  - exfalso. refine (@absent_from_quiet isRouteMutation _ _ _ _ _ Ht Hev).
    rewrite existsb_app, Hwait. reflexivity.
  - exfalso. refine (@absent_from_quiet isRouteMutation _ _ _ _ _ Ht Hev).
    rewrite existsb_app, Hwait. reflexivity.
Qed.

Lemma routes_change_only_after_ready_witness :
  traceOf (startVPN 1 (lit "203.0.113.5") envTunnelUp world0)
  = firstn 9 (traceOf (startVPN 1 (lit "203.0.113.5") envTunnelUp world0))
    ++ Exec (routeAdd (lit "203.0.113.5") (lit "172.17.0.1")) []
    :: [Exec routeReplace []]
  /\ exists before between,
       firstn 9 (traceOf (startVPN 1 (lit "203.0.113.5") envTunnelUp world0))
       = before ++ statusQuery :: ifaceQuery :: between
       /\ readyAt envTunnelUp (idx world0 + List.length before) = true
       /\ existsb isStatusQuery between = false.
Proof.
  assert (Ht : traceOf (startVPN 1 (lit "203.0.113.5") envTunnelUp world0)
               = firstn 9 (traceOf (startVPN 1 (lit "203.0.113.5") envTunnelUp world0))
                 ++ Exec (routeAdd (lit "203.0.113.5") (lit "172.17.0.1")) []
                 :: [Exec routeReplace []])
    by (vm_compute; reflexivity).
  split; [exact Ht|].
  exact (@routes_change_only_after_ready 1 (lit "203.0.113.5") envTunnelUp world0
           _ _ _ Ht eq_refl).
Defined.

(** ** How long the polling lasts *)








(** X12: with a timeout of zero or less [waitForVpnConnection] does not
    poll at all: its only interaction is the read of the daemon log, and
    it throws. *)
Theorem no_time_no_poll fuel timeout interval env w :
  (timeout <= 0)%Z ->
  waitForVpnConnection (S fuel) timeout interval env w
  = match failure (env (idx w)) with
    | Some e => (Throw e, advance env w 0, [logRead])
    | None => (Throw (timeoutMessage ++ text (env (idx w))),
               advance env w 0, [logRead])
    end.
Proof.
  intros Htimeout. rewrite waitForVpnConnection_eq, pollLoop_step.
  destruct (Z.ltb_spec (clock w - clock w) timeout) as [H | _]; [lia|].
  reflexivity.
Qed.

Lemma no_time_no_poll_witness :
  waitForVpnConnection 1 0 1000 envSilent world0
  = match failure (envSilent (idx world0)) with
    | Some e => (Throw e, advance envSilent world0 0, [logRead])
    | None => (Throw (timeoutMessage ++ text (envSilent (idx world0))),
               advance envSilent world0 0, [logRead])
    end.
Proof.
  apply (@no_time_no_poll 0 0 1000 envSilent world0). lia.
Defined.

(** ** The configuration is complete before a daemon starts *)

Lemma quiet_artifact_connect fuel server : quiet isArtifactStep (connect fuel server).
Proof. unfold connect. unfold_program. quiet_tac. Qed.

(** X13: in a run, a daemon is started only after all five artifacts
    have been written, moved and protected successfully and the resolver
    link has been attempted; no artifact is touched from then on. *)
Theorem daemons_start_after_the_configuration fuel env w pre ev post :
  traceOf (run fuel env w) = pre ++ ev :: post ->
  isDaemonStart ev = true ->
  exists server username password psk between,
    pre = setupSteps ++ configSteps server username password psk
          ++ symlinkStep :: between
    /\ (forall n, n < 20 -> failure (env (idx w + 7 + n)) = None)
    /\ existsb isArtifactStep between = false
    /\ existsb isArtifactStep post = false.
Proof.
  intros Ht Hev. rewrite run_eq in Ht.
  destruct (main_cases fuel env w)
    as [(n & e & w' & _ & Hmain)
       | (w7 & server & username & password & psk & Hidx & Hmain)];
    rewrite Hmain in Ht.
  { exfalso. observe.
    refine (@absent_from_quiet isDaemonStart _ _ _ _ _ Ht Hev).
    rewrite existsb_app.
    rewrite (existsb_firstn_false isDaemonStart (S n) setupSteps eq_refl).
    reflexivity. }
  rewrite bind_eq in Ht.
  assert (Hlen : List.length (configSteps server username password psk) = 20)
    by (rewrite configSteps_eq; reflexivity).
  assert (Hsteps : existsb isDaemonStart (configSteps server username password psk)
                   = false) by (rewrite configSteps_eq; reflexivity).
  destruct (createConfigFiles_cases server username password psk env w7)
    as [(n & e & w' & _ & _ & Hcfg) | (w' & Hall & Hcfg)]; rewrite Hcfg in Ht.
  { exfalso. unfold after in Ht. observe.
    refine (@absent_from_quiet isDaemonStart _ _ _ _ _ Ht Hev).
    rewrite !existsb_app.
    rewrite (existsb_firstn_false isDaemonStart (S n) _ Hsteps).
    reflexivity. }
  pose proof (@quiet_artifact_connect fuel server env w') as Hconnect.
  set (tail := symlinkTail env
                 (idx w7 + List.length (configSteps server username password psk)))
    in *.
  assert (Htail : existsb isDaemonStart tail = false
                  /\ existsb isArtifactStep tail = false).
  { unfold tail, symlinkTail.
    destruct (failure (env (idx w7 + List.length
                                      (configSteps server username password psk))));
      split; reflexivity. }
  destruct Htail as [Htail1 Htail2].
  destruct (connect fuel server env w') as [[o w2] t2]. unfold after in Ht. observe.
  assert (Hrun : exists reported,
             existsb isArtifactStep (t2 ++ reported) = false
             /\ (setupSteps ++ configSteps server username password psk
                 ++ symlinkStep :: tail) ++ t2 ++ reported
                = pre ++ ev :: post).
  { destruct o as [[]|e|]; cbn [snd] in Ht.
    - exists []. rewrite app_nil_r. split; [exact Hconnect|].
      rewrite <- Ht, <- !app_assoc. reflexivity.
    - exists [SetFailed e]. split; [rewrite existsb_app, Hconnect; reflexivity|].
      rewrite <- Ht, <- !app_assoc. reflexivity.
    - exists []. rewrite app_nil_r. split; [exact Hconnect|].
      rewrite <- Ht, <- !app_assoc. reflexivity. }
  destruct Hrun as (reported & Hquiet & Hshape).
  assert (Hbefore : existsb isDaemonStart
                      (setupSteps ++ configSteps server username password psk
                       ++ symlinkStep :: tail) = false)
    by (rewrite !existsb_app, Hsteps; cbn [existsb]; rewrite Htail1; reflexivity).
  destruct (@locate_after_quiet _ _ _ _ _ _ Hbefore Hshape Hev) as (pre_c & Hpre & Hrest).
  exists server, username, password, psk, (tail ++ pre_c).
  rewrite Hrest, existsb_app in Hquiet. cbn [existsb] in Hquiet.
  apply orb_false_iff in Hquiet. destruct Hquiet as [Hq1 Hq2].
  apply orb_false_iff in Hq2. destruct Hq2 as [_ Hq2].
  split; [rewrite Hpre, <- !app_assoc; reflexivity|]. split; [|split].
  - intros n Hn. replace (idx w + 7 + n) with (idx w7 + n) by lia.
    apply Hall. lia.
  - rewrite existsb_app, Htail2, Hq1. reflexivity.
  - exact Hq2.
Qed.

Lemma daemons_start_after_the_configuration_witness :
  traceOf (run 1 envDaemonRefused world0)
  = firstn 30 (traceOf (run 1 envDaemonRefused world0))
    ++ Exec (lit "sudo ipsec start") []
    :: [SetFailed (lit "The process '/usr/bin/sudo' failed with exit code 1")]
  /\ exists server username password psk between,
       firstn 30 (traceOf (run 1 envDaemonRefused world0))
       = setupSteps ++ configSteps server username password psk
         ++ symlinkStep :: between
       /\ (forall n, n < 20 -> failure (envDaemonRefused (idx world0 + 7 + n)) = None)
       /\ existsb isArtifactStep between = false
       /\ existsb isArtifactStep
            [SetFailed (lit "The process '/usr/bin/sudo' failed with exit code 1")]
          = false.
Proof.
  assert (Ht : traceOf (run 1 envDaemonRefused world0)
               = firstn 30 (traceOf (run 1 envDaemonRefused world0))
                 ++ Exec (lit "sudo ipsec start") []
                 :: [SetFailed (lit "The process '/usr/bin/sudo' failed with exit code 1")])
    by (vm_compute; reflexivity).
  split; [exact Ht|].
  exact (@daemons_start_after_the_configuration 1 envDaemonRefused world0
           _ _ _ Ht eq_refl).
Defined.

(** ** Where the credentials go *)

Section Flow.

Variable paths : list jsstring.

Lemma similar_refl {A} (r : Outcome A * World * list Event) : similar paths r r.
Proof. repeat split. Qed.

Lemma similar_app {B} (t1 t1' : list Event)
    (r r' : Outcome B * World * list Event) :
  map (redactAt paths) t1 = map (redactAt paths) t1' ->
  similar paths r r' ->
  similar paths (let '(o2, w2, t2) := r in (o2, w2, t1 ++ t2))
                (let '(o2, w2, t2) := r' in (o2, w2, t1' ++ t2)).
Proof.
  intros Ht Hr. destruct r as [[o2 w2] t2], r' as [[o2' w2'] t2'].
  destruct Hr as (Ho2 & Hw2 & Ht2). observe.
  repeat split; observe; try assumption.
  rewrite !map_app, Ht, Ht2. reflexivity.
Qed.

Lemma similar_stop {B} (o : Outcome B) (w : World) (t t' : list Event) :
  map (redactAt paths) t = map (redactAt paths) t' ->
  similar paths (o, w, t) (o, w, t').
Proof. intros Ht. repeat split. exact Ht. Qed.

Lemma local_ret {A} (a : A) : local paths (ret a) (ret a).
Proof. intros env env' w _. apply similar_refl. Qed.

Lemma local_throw {A} e : local paths (@throw A e) (throw e).
Proof. intros env env' w _. apply similar_refl. Qed.

Lemma local_diverge {A} : local paths (@diverge A) diverge.
Proof. intros env env' w _. apply similar_refl. Qed.

Lemma local_Date_now : local paths Date_now Date_now.
Proof. intros env env' w _. apply similar_refl. Qed.

Lemma local_attempt {A} ev ev' (f : Reply -> A) :
  redactAt paths ev = redactAt paths ev' ->
  local paths (attempt ev f) (attempt ev' f).
Proof.
  intros Hev env env' w Hagree. rewrite !attempt_eq.
  rewrite <- (Hagree (idx w) (le_n _)).
  assert (Hadv : advance env' w 0 = advance env w 0)
    by (unfold advance; rewrite <- (Hagree (idx w) (le_n _)); reflexivity).
  rewrite Hadv.
  destruct (failure (env (idx w))); apply similar_stop; cbn [map];
    rewrite Hev; reflexivity.
Qed.

Lemma local_interact ev c : local paths (interact ev c) (interact ev c).
Proof.
  intros env env' w Hagree. unfold interact, advance.
  rewrite <- (Hagree (idx w) (le_n _)). apply similar_refl.
Qed.

Lemma local_bind {A B} (m m' : M A) (k k' : A -> M B) :
  local paths m m' -> counted m -> (forall a, local paths (k a) (k' a)) ->
  local paths (bind m k) (bind m' k').
Proof.
  intros Hm Hc Hk env env' w Hagree.
  specialize (Hm env env' w Hagree). specialize (Hc env w).
  unfold bind.
  destruct (m env w) as [[o w1] t1], (m' env' w) as [[o' w1'] t1'].
  destruct Hm as (Ho & Hw & Ht). observe. subst o' w1'.
  destruct o as [a|e|];
    [|apply similar_stop; exact Ht | apply similar_stop; exact Ht].
  apply (similar_app _ _ Ht). apply Hk.
  intros i Hi. apply Hagree. lia.
Qed.

Lemma local_try_catch {A} (m m' : M A) (h h' : jsstring -> M A) :
  local paths m m' -> counted m -> (forall e, local paths (h e) (h' e)) ->
  local paths (try_catch m h) (try_catch m' h').
Proof.
  intros Hm Hc Hh env env' w Hagree.
  specialize (Hm env env' w Hagree). specialize (Hc env w).
  unfold try_catch.
  destruct (m env w) as [[o w1] t1], (m' env' w) as [[o' w1'] t1'].
  destruct Hm as (Ho & Hw & Ht). observe. subst o' w1'.
  destruct o as [a|e|];
    [apply similar_stop; exact Ht | | apply similar_stop; exact Ht].
  apply (similar_app _ _ Ht). apply Hh.
  intros i Hi. apply Hagree. lia.
Qed.

Lemma similar_input name (k k' : jsstring -> M unit) env env' w :
  failure (env (idx w)) = failure (env' (idx w)) ->
  elapsed (env (idx w)) = elapsed (env' (idx w)) ->
  similar paths (k (text (env (idx w))) env (advance env w 0))
                (k' (text (env' (idx w))) env' (advance env w 0)) ->
  similar paths (bind (core_getInput name) k env w)
                (bind (core_getInput name) k' env' w).
Proof.
  intros Hf Hel Hk. unfold core_getInput. rewrite !bind_eq, !attempt_eq.
  assert (Hadv : advance env' w 0 = advance env w 0)
    by (unfold advance; rewrite Hel; reflexivity).
  rewrite <- Hf, Hadv.
  destruct (failure (env (idx w))); [apply similar_refl|].
  cbv beta iota.
  exact (similar_app [GetInput name] [GetInput name] eq_refl Hk).
Qed.

End Flow.

Ltac local_tac :=
  repeat lazymatch goal with
    | |- local _ (bind _ _) (bind _ _) =>
        apply local_bind; [ | solve [counted_prog] | intro]
    | |- local _ (try_catch _ _) (try_catch _ _) =>
        apply local_try_catch; [ | solve [counted_prog] | intro]
    | |- local _ (ret _) _ => apply local_ret
    | |- local _ (throw _) _ => apply local_throw
    | |- local _ diverge _ => apply local_diverge
    | |- local _ Date_now _ => apply local_Date_now
    | |- local _ (attempt _ _) _ => apply local_attempt; reflexivity
    | |- local _ (interact _ _) _ => apply local_interact
    | |- local _ (if ?b then _ else _) _ => destruct b
    | |- local _ (match ?x with Some _ => _ | None => _ end) _ => destruct x
    | |- local _ (let x := _ in _) _ => cbv zeta
    end.

Lemma local_pollLoop paths fuel start timeout interval :
  local paths (pollLoop fuel start timeout interval)
              (pollLoop fuel start timeout interval).
Proof.
  induction fuel as [|fuel IH]; cbn [pollLoop]; [apply local_diverge|].
  apply local_bind; [apply local_Date_now | apply counted_Date_now | intro now].
  destruct (now - start <? timeout)%Z; [|apply local_ret].
  apply local_bind.
  - unfold pollOnce, exec_stdout. local_tac.
  - unfold pollOnce, exec_stdout. counted_tac.
  - intros [|]; [apply local_ret|].
    unfold sleep.
    apply local_bind; [ | counted_tac | intro; exact IH].
    local_tac.
Qed.

Ltac local_prog :=
  unfold afterInputs, waitForVpnConnection, context_payload, emit;
  unfold_program; unfold waitForVpnConnection, fs_readFile, emit;
  repeat lazymatch goal with
    | |- local _ (pollLoop _ _ _ _) _ => apply local_pollLoop
    | _ => progress local_tac
    end.

(** What is done after the inputs are read differs, from one set of
    credentials to another, in the contents of two files at most; in one
    of them when the key is the same, in the other when the account is. *)
Lemma local_afterInputs fuel server username password psk username' password' psk' :
  local [lit "/tmp/options.l2tpd.client"; lit "/tmp/ipsec.secrets"]
        (afterInputs fuel server username password psk)
        (afterInputs fuel server username' password' psk').
Proof. local_prog. Qed.

Lemma local_afterInputs_account fuel server username password psk username' password' :
  local [lit "/tmp/options.l2tpd.client"]
        (afterInputs fuel server username password psk)
        (afterInputs fuel server username' password' psk).
Proof. local_prog. Qed.

Lemma local_afterInputs_key fuel server username password psk psk' :
  local [lit "/tmp/ipsec.secrets"]
        (afterInputs fuel server username password psk)
        (afterInputs fuel server username password psk').
Proof. local_prog. Qed.

Lemma run_similar paths fuel env env' w :
  (forall i,
     failure (env i) = failure (env' i)
     /\ stdout (env i) = stdout (env' i)
     /\ elapsed (env i) = elapsed (env' i)) ->
  (forall i,
     i <> idx w + 1 -> i <> idx w + 2 -> i <> idx w + 3 ->
     text (env i) = text (env' i)) ->
  (forall server,
     local paths
       (afterInputs fuel server (text (env (idx w + 1))) (text (env (idx w + 2)))
          (text (env (idx w + 3))))
       (afterInputs fuel server (text (env' (idx w + 1))) (text (env' (idx w + 2)))
          (text (env' (idx w + 3))))) ->
  outcomeOf (run fuel env w) = outcomeOf (run fuel env' w)
  /\ map (redactAt paths) (traceOf (run fuel env w))
     = map (redactAt paths) (traceOf (run fuel env' w)).
Proof.
  intros Hsame Htext Hlocal.
  assert (Hagree : forall i, idx w + 4 <= i -> env i = env' i).
  { intros i Hi. destruct (Hsame i) as (Hf & Hs & He).
    pose proof (Htext i ltac:(lia) ltac:(lia) ltac:(lia)) as Ht.
    destruct (env i), (env' i). cbn in *. subst. reflexivity. }
  assert (Hmain : similar paths (main fuel env w) (main fuel env' w)).
  { change (main fuel)
      with (server <- core_getInput (lit "server") ;;
            username <- core_getInput (lit "username") ;;
            password <- core_getInput (lit "password") ;;
            psk <- core_getInput (lit "psk") ;;
            afterInputs fuel server username password psk).
    apply similar_input; [apply Hsame | apply Hsame |].
    rewrite <- (Htext (idx w) ltac:(lia) ltac:(lia) ltac:(lia)).
    apply similar_input; [apply Hsame | apply Hsame |].
    apply similar_input; [apply Hsame | apply Hsame |].
    apply similar_input; [apply Hsame | apply Hsame |].
    rewrite !advance_idx.
    replace (S (idx w)) with (idx w + 1) by lia.
    replace (S (idx w + 1)) with (idx w + 2) by lia.
    replace (S (idx w + 2)) with (idx w + 3) by lia.
    apply Hlocal. intros i Hi. apply Hagree.
    rewrite !advance_idx in Hi. lia. }
  rewrite !run_eq.
  destruct (main fuel env w) as [[o w1] t1], (main fuel env' w) as [[o' w1'] t1'].
  destruct Hmain as (Ho & Hw & Ht). observe. subst o' w1'.
  destruct o as [[]|e|]; observe; split; try reflexivity; try exact Ht.
  rewrite !map_app, Ht. reflexivity.
Qed.

(** X14: the user name, the password and the pre-shared key reach
    nothing but the contents of two files.  Two runs whose environments
    differ only in the values of these three inputs end in the same way
    and log the same events, commands, arguments, messages and report of
    failure included, but for what is written to
    [/tmp/options.l2tpd.client] and [/tmp/ipsec.secrets]; with the same
    key only the first of the two can differ, with the same user name and
    password only the second. *)
Theorem credentials_reach_file_contents_only fuel env env' w :
  (forall i,
     failure (env i) = failure (env' i)
     /\ stdout (env i) = stdout (env' i)
     /\ elapsed (env i) = elapsed (env' i)) ->
  (forall i,
     i <> idx w + 1 -> i <> idx w + 2 -> i <> idx w + 3 ->
     text (env i) = text (env' i)) ->
  outcomeOf (run fuel env w) = outcomeOf (run fuel env' w)
  /\ map (redactAt [lit "/tmp/options.l2tpd.client"; lit "/tmp/ipsec.secrets"])
         (traceOf (run fuel env w))
     = map (redactAt [lit "/tmp/options.l2tpd.client"; lit "/tmp/ipsec.secrets"])
           (traceOf (run fuel env' w))
  /\ (text (env (idx w + 3)) = text (env' (idx w + 3)) ->
      map (redactAt [lit "/tmp/options.l2tpd.client"]) (traceOf (run fuel env w))
      = map (redactAt [lit "/tmp/options.l2tpd.client"]) (traceOf (run fuel env' w)))
  /\ (text (env (idx w + 1)) = text (env' (idx w + 1)) ->
      text (env (idx w + 2)) = text (env' (idx w + 2)) ->
      map (redactAt [lit "/tmp/ipsec.secrets"]) (traceOf (run fuel env w))
      = map (redactAt [lit "/tmp/ipsec.secrets"]) (traceOf (run fuel env' w))).
Proof.
  intros Hsame Htext. split; [|split; [|split]].
  - apply (@run_similar [lit "/tmp/options.l2tpd.client"; lit "/tmp/ipsec.secrets"]
             fuel env env' w Hsame Htext).
    intros server. apply local_afterInputs.
  - apply (@run_similar [lit "/tmp/options.l2tpd.client"; lit "/tmp/ipsec.secrets"]
             fuel env env' w Hsame Htext).
    intros server. apply local_afterInputs.
  - intros Hpsk.
    apply (@run_similar [lit "/tmp/options.l2tpd.client"] fuel env env' w Hsame Htext).
    intros server. rewrite Hpsk. apply local_afterInputs_account.
  - intros Huser Hpass.
    apply (@run_similar [lit "/tmp/ipsec.secrets"] fuel env env' w Hsame Htext).
    intros server. rewrite Huser, Hpass. apply local_afterInputs_key.
Qed.

Lemma credentials_reach_file_contents_only_witness :
  outcomeOf (run 40 envAlice world0) = outcomeOf (run 40 envBob world0)
  /\ map (redactAt [lit "/tmp/options.l2tpd.client"])
         (traceOf (run 40 envAlice world0))
     = map (redactAt [lit "/tmp/options.l2tpd.client"])
           (traceOf (run 40 envBob world0)).
Proof.
  destruct (@credentials_reach_file_contents_only 40 envAlice envBob world0)
    as (Hend & _ & Haccount & _).
  - intros i. do 4 (destruct i as [|i]; [repeat split|]). repeat split.
  - intros i H1 H2 H3.
    destruct i as [|[|[|[|i]]]]; try reflexivity;
      [exfalso; apply H1 | exfalso; apply H2]; reflexivity.
  - split; [exact Hend | apply Haccount; reflexivity].
Defined.

(** ** What a run without a reported failure has done *)

Lemma quiet_consoleLog_startVPN fuel server :
  quiet isConsoleLog (startVPN fuel server).
Proof. unfold_program. quiet_tac. Qed.

Lemma startVPN_ok fuel server env w w' t :
  startVPN fuel server env w = (Ok tt, w', t) ->
  exists pre gateway,
    t = pre ++ [Exec (routeGet server) []; Exec (routeAdd server gateway) [];
                Exec routeReplace []]
    /\ truthy gateway = true.
Proof.
  intros H. rewrite startVPN_eq in H. cbv zeta in H.
  destruct (failure (env (S (idx w)))); [discriminate H|].
  destruct (failure (env (S (S (idx w))))); [discriminate H|].
  rewrite bind_eq in H.
  destruct (waitForVpnConnection fuel default_timeout default_interval env
              (advance env (advance env (advance env (advance env w 0) 0) 0) 0))
    as [[[v|e|] w5] t5]; unfold after in H; [|discriminate H|discriminate H].
  unfold core_info in H. rewrite bind_eq, emit_eq in H. cbv beta iota in H.
  rewrite bind_eq, emit_eq in H. cbv beta iota in H.
  rewrite commitRoutes_eq in H. cbv zeta in H.
  set (w7 := advance env (advance env w5 0) 0) in *.
  destruct (failure (env (idx w7))); [discriminate H|].
  destruct (truthy (gatewayOf (stdout (env (idx w7))))) eqn:Hg; [|discriminate H].
  destruct (failure (env (S (idx w7)))); [discriminate H|].
  destruct (failure (env (S (S (idx w7))))); [discriminate H|].
  injection H as _ Ht. subst t.
  exists ([Info (lit "Starting the VPN connection...");
           Exec (lit "sudo ipsec start") [];
           Exec (lit "sudo xl2tpd -C /tmp/l2tp-control") [];
           Info (lit "Waiting for the VPN connection to start...")]
          ++ t5
          ++ [Info (lit "VPN connection established!");
              Info (lit "Settings routes...")]),
    (gatewayOf (stdout (env (idx w7)))).
  split; [|exact Hg].
  rewrite <- !app_assoc. reflexivity.
Qed.

Lemma connect_ends fuel server env w :
  (exists w' pre gateway payload,
      connect fuel server env w
      = (Ok tt, w', pre ++ closingSteps server gateway payload)
      /\ truthy gateway = true)
  \/ (outcomeOf (connect fuel server env w) <> Ok tt
      /\ existsb isConsoleLog (traceOf (connect fuel server env w)) = false).
Proof.
  unfold connect. rewrite bind_eq.
  pose proof (@quiet_consoleLog_startVPN fuel server env w) as Hq.
  destruct (startVPN fuel server env w) as [[[[]|e|] w1] t1] eqn:Hs; observe.
  - left. destruct (@startVPN_ok _ _ _ _ _ _ Hs) as (pre & gateway & -> & Hg).
    exists (advance env (advance env w1 0) 0), pre, gateway, (text (env (idx w1))).
    split; [|exact Hg].
    unfold closingSteps. cbv [context_payload console_log emit bind interact ret].
    rewrite <- app_assoc. reflexivity.
  - right. split; [discriminate | exact Hq].
  - right. split; [discriminate | exact Hq].
Qed.

Lemma main_ends fuel env w :
  (exists w' pre server gateway payload,
      main fuel env w = (Ok tt, w', pre ++ closingSteps server gateway payload)
      /\ truthy gateway = true)
  \/ (outcomeOf (main fuel env w) <> Ok tt
      /\ existsb isConsoleLog (traceOf (main fuel env w)) = false).
Proof.
  destruct (main_cases fuel env w)
    as [(n & e & w' & _ & Hmain)
       | (w7 & server & username & password & psk & _ & Hmain)];
    rewrite Hmain.
  { right. observe. split; [discriminate|].
    apply existsb_firstn_false. reflexivity. }
  rewrite bind_eq.
  assert (Hsteps : existsb isConsoleLog (configSteps server username password psk)
                   = false) by (rewrite configSteps_eq; reflexivity).
  destruct (createConfigFiles_cases server username password psk env w7)
    as [(n & e & w' & _ & _ & Hcfg) | (w' & _ & Hcfg)]; rewrite Hcfg.
  { right. unfold after. observe. split; [discriminate|].
    rewrite existsb_app, (existsb_firstn_false isConsoleLog (S n) _ Hsteps).
    reflexivity. }
  set (tail := symlinkTail env
                 (idx w7 + List.length (configSteps server username password psk))).
  assert (Htail : existsb isConsoleLog tail = false).
  { unfold tail, symlinkTail.
    destruct (failure (env (idx w7 + List.length
                                      (configSteps server username password psk))));
      reflexivity. }
  destruct (connect_ends fuel server env w')
    as [(w2 & pre & gateway & payload & Hc & Hg) | (Ho & Hq)].
  - left. rewrite Hc. unfold after.
    exists w2,
      (setupSteps ++ (configSteps server username password psk
                      ++ symlinkStep :: tail) ++ pre),
      server, gateway, payload.
    split; [|exact Hg]. rewrite <- !app_assoc. reflexivity.
  - right. destruct (connect fuel server env w') as [[o w2] t2].
    unfold after. observe. split; [exact Ho|].
    rewrite !existsb_app, Hsteps, Hq. cbn [existsb]. rewrite Htail. reflexivity.
Qed.

(** X15: the event payload is printed only by a run that reports no
    failure, as its last step, right after the route query and the two
    route commands, all three successful and with a gateway found; and a
    run that ends without reporting a failure has printed it. *)
Theorem payload_is_printed_on_success_only fuel env w :
  let t := traceOf (run fuel env w) in
  (existsb isConsoleLog t = true ->
   existsb isSetFailed t = false
   /\ exists pre server gateway payload,
        t = pre ++ closingSteps server gateway payload
        /\ truthy gateway = true)
  /\ (outcomeOf (run fuel env w) = Ok tt ->
      existsb isSetFailed t = false ->
      existsb isConsoleLog t = true).
Proof.
  cbv zeta. rewrite run_eq.
  pose proof (@quiet_setFailed_main fuel env w) as Hquiet.
  destruct (main_ends fuel env w)
    as [(w' & pre & server & gateway & payload & Hmain & Hg) | (Ho & Hq)].
  - rewrite Hmain in *. observe. split.
    + intros _. split; [exact Hquiet|]. exists pre, server, gateway, payload.
      split; [reflexivity | exact Hg].
    + intros _ _. rewrite existsb_app. unfold closingSteps. cbn [existsb isConsoleLog].
      apply orb_true_r.
  - destruct (main fuel env w) as [[[[]|e|] w1] t1]; observe.
    + exfalso. apply Ho. reflexivity.
    + split.
      * intros H. rewrite existsb_app, Hq in H. discriminate H.
      * intros _ H. rewrite existsb_app in H. cbn [existsb isSetFailed] in H.
        rewrite orb_true_r in H. discriminate H.
    + split; [intros H; rewrite Hq in H; discriminate H | intros H; discriminate H].
Qed.

Lemma payload_is_printed_on_success_only_witness :
  existsb isConsoleLog (traceOf (run 1 envRunUp world0)) = true
  /\ existsb isSetFailed (traceOf (run 1 envRunUp world0)) = false
  /\ exists pre server gateway payload,
       traceOf (run 1 envRunUp world0) = pre ++ closingSteps server gateway payload
       /\ truthy gateway = true.
Proof.
  destruct (@payload_is_printed_on_success_only 1 envRunUp world0) as [Hprinted Hdone].
  assert (H : existsb isConsoleLog (traceOf (run 1 envRunUp world0)) = true)
    by (apply Hdone; vm_compute; reflexivity).
  split; [exact H | exact (Hprinted H)].
Defined.
